(** * team_ex_2.py: fetch, persist and the three execution strategies

    A shallow embedding of [team_ex_2.py] and the properties of its
    per-item pipeline (fetch item, persist, report) under the sequential,
    thread-pool and process-pool strategies.

    Python values are modelled as follows.
    - [str] is a sequence of Unicode code points: [list N].
    - file contents are byte strings: Rocq's [string].
    - [int] counters are [Z].
    - an exception is a value of [exn]: its class and the text [str(e)].
      [exn] stands for the instances of Python's [Exception]; the
      interpreter signals that only derive from [BaseException]
      (KeyboardInterrupt, SystemExit) are not failures of a collaborator
      and are outside the model.
    - the external collaborators (the wikipedia client, the file system,
      the executors of concurrent.futures) are modelled at their
      interface, see [World] and the scheduling arguments of the pools;
      this includes the standard output, which may refuse a line. *)

From Stdlib Require Import ZArith NArith Ascii String.
From stdpp Require Import gmap list strings pretty.

Local Open Scope Z_scope.

(** ** Python strings *)

Abbreviation pystr := (list N).

(** The code points of an ASCII literal. *)
Definition str (s : string) : pystr :=
  (λ a, N_of_ascii a) <$> list_ascii_of_string s.
Arguments str : simpl never.

(** [sep.join(parts)] *)
Fixpoint join (sep : pystr) (parts : list pystr) : pystr :=
  match parts with
  | [] => []
  | [p] => p
  | p :: ps => p ++ sep ++ join sep ps
  end.

(** Unicode white space as [str.isspace], [str.strip] and the regular
    expression class [\s] on [str] patterns see it. *)
Definition is_space (c : N) : bool :=
  ((9 <=? c) && (c <=? 13) || (28 <=? c) && (c <=? 32)
   || (c =? 133) || (c =? 160) || (c =? 5760)
   || (8192 <=? c) && (c <=? 8202)
   || (c =? 8232) || (c =? 8233) || (c =? 8239) || (c =? 8287)
   || (c =? 12288))%N.

(** The character class of the first substitution of [safe_filename]:
    backslash, slash, colon, star, question mark, double quote, the two
    angle brackets and the bar. *)
Definition illegal_chars : pystr := [92; 47; 58; 42; 63; 34; 60; 62; 124]%N.

Definition is_illegal (c : N) : bool := bool_decide (c ∈ illegal_chars).

(** [re.sub(cls+, repl, s)] for a character class [cls]: every maximal run
    of characters of the class is replaced by one copy of [repl].
    [in_run] tells that the previous character belonged to a run whose
    replacement is already emitted. *)
Fixpoint sub_runs (cls : N → bool) (repl : pystr) (in_run : bool) (s : pystr)
  : pystr :=
  match s with
  | [] => []
  | c :: s' =>
      if cls c then
        if in_run then sub_runs cls repl true s'
        else repl ++ sub_runs cls repl true s'
      else c :: sub_runs cls repl false s'
  end.

Definition re_sub_plus (cls : N → bool) (repl s : pystr) : pystr :=
  sub_runs cls repl false s.

(** [s.lstrip()], [s.rstrip()], [s.strip()] *)
Fixpoint lstrip (s : pystr) : pystr :=
  match s with
  | [] => []
  | c :: s' => if is_space c then lstrip s' else s
  end.

Fixpoint rstrip (s : pystr) : pystr :=
  match s with
  | [] => []
  | c :: s' =>
      match rstrip s' with
      | [] => if is_space c then [] else [c]
      | r => c :: r
      end
  end.

Definition strip (s : pystr) : pystr := rstrip (lstrip s).

(** ** Utilities *)

Definition safe_filename (name : pystr) : pystr :=
  let name := re_sub_plus is_illegal (str "_") name in
  let name := strip (re_sub_plus is_space (str " ") name) in
  rstrip (take 150 name).

(** ** Exceptions and the effects of the program *)

Inductive exn_class :=
  | DisambiguationError | PageError | HTTPTimeoutError
  | OSError | UnicodeEncodeError | ValueError | OtherException.

(** An exception value: its class and [str(e)]. *)
Record exn := Exn { exn_cls : exn_class; exn_str : pystr }.

(** What a call does: it returns a value or raises. *)
Inductive outcome (A : Type) :=
  | Returned (a : A)
  | Raised (e : exn).
Arguments Returned {A} a.
Arguments Raised {A} e.

#[global] Instance outcome_ret : MRet outcome := λ A a, Returned a.
#[global] Instance outcome_bind : MBind outcome := λ A B f m,
  match m with
  | Returned a => f a
  | Raised e => Raised e
  end.

(** A file is named by its directory and its final component
    ([outdir / fn]; [Path.name] is the second part). *)
Abbreviation path := (pystr * pystr)%type.

(** The part of the machine the program changes: the files of the storage
    (name to bytes) and the lines printed so far. *)
Record State := mkState { files : gmap path string; stdout : list pystr }.

(** A statement: from a state to a result (or a raised exception) and the
    state left behind; an exception keeps the effects made before it. *)
Definition M (A : Type) : Type := State → outcome A * State.

#[global] Instance M_ret : MRet M := λ A a st, (Returned a, st).
#[global] Instance M_bind : MBind M := λ A B f m st,
  match m st with
  | (Returned a, st') => f a st'
  | (Raised e, st') => (Raised e, st')
  end.

Definition lift {A} (o : outcome A) : M A := λ st, (o, st).

Definition raise {A} (e : exn) : M A := λ st, (Raised e, st).

(** ** The collaborators *)

(** A page object of the wikipedia client: [page.title] is a string,
    reading the property [page.references] queries the source again and
    returns a list (or nothing) or raises. *)
Record WikipediaPage := mkPage {
  page_title : pystr;
  page_references : outcome (option (list pystr))
}.

(** The world outside the program, fixed during a run:
    - [wikipedia_search term] is what [wikipedia.search(term)] does: it
      returns a list of titles (or nothing) or raises;
    - [wikipedia_page t] is what [wikipedia.page(t, auto_suggest=False)]
      does: it returns a page or raises an error of the client;
    - [open_error p] is the error (if any) with which the storage refuses
      to open the file [p] for writing;
    - [encode_error text] is [str(e)] of the [UnicodeEncodeError] that
      the UTF-8 codec raises on a text it cannot encode;
    - [print_error line] is the error (if any) with which the standard
      output refuses the line: the [UnicodeEncodeError] of its encoding
      on a character it cannot encode. *)
Record World := mkWorld {
  wikipedia_search : pystr → outcome (option (list pystr));
  wikipedia_page : pystr → outcome WikipediaPage;
  open_error : path → option exn;
  encode_error : pystr → pystr;
  print_error : pystr → option exn
}.

(** [print(line)]: the line is encoded before anything is written, so a
    refused line leaves the output as it is. *)
Definition print (W : World) (line : pystr) : M unit :=
  λ st,
    match print_error W line with
    | Some e => (Raised e, st)
    | None => (Returned (), mkState (files st) (stdout st ++ [line]))
    end.

(** UTF-8: one to four bytes per code point; a surrogate (and anything
    beyond U+10FFFF) has no encoding. *)
Definition utf8_char (c : N) : option (list ascii) :=
  (if c <? 128 then Some [ascii_of_N c]
   else if c <? 2048 then
     Some [ascii_of_N (192 + c / 64); ascii_of_N (128 + c mod 64)]
   else if c <? 65536 then
     if (55296 <=? c) && (c <=? 57343) then None
     else Some [ascii_of_N (224 + c / 4096);
                ascii_of_N (128 + (c / 64) mod 64);
                ascii_of_N (128 + c mod 64)]
   else if c <? 1114112 then
     Some [ascii_of_N (240 + c / 262144);
           ascii_of_N (128 + (c / 4096) mod 64);
           ascii_of_N (128 + (c / 64) mod 64);
           ascii_of_N (128 + c mod 64)]
   else None)%N.

Definition utf8_encode (text : pystr) : option string :=
  bs ← mapM utf8_char text; Some (string_of_list_ascii (concat bs)).

Definition set_file (p : path) (bytes : string) (st : State) : State :=
  mkState (<[p := bytes]> (files st)) (stdout st).

(** [path.write_text(text, encoding=utf-8)]: the file is opened for
    writing (created or truncated), then the encoded text is written; a
    text that cannot be encoded raises after the file was opened, which
    leaves it empty. Line ends are written as they are (no translation,
    as on POSIX systems). *)
Definition write_text (W : World) (p : path) (text : pystr) : M unit :=
  λ st,
    match open_error W p with
    | Some e => (Raised e, st)
    | None =>
        match utf8_encode text with
        | Some bytes => (Returned (), set_file p bytes st)
        | None =>
            (Raised (Exn UnicodeEncodeError (encode_error W text)),
             set_file p EmptyString st)
        end
    end.

(** ** Core operations *)

Record FetchResult := mkFetchResult {
  title : pystr;
  references : list pystr;
  error : option pystr
}.

(** [x or []] *)
Definition or_empty (x : option (list pystr)) : list pystr := default [] x.

Definition search_related (W : World) (term : pystr) (limit : Z)
  : outcome (list pystr) :=
  results ← wikipedia_search W term;
  mret (take (Z.to_nat (Z.max 0 limit)) (or_empty results)).

Definition fetch_page_references (W : World) (title : pystr)
  : outcome FetchResult :=
  match
    (page ← wikipedia_page W title;
     refs ← page_references page;
     mret (mkFetchResult (page_title page) (or_empty refs) None))
  with
  | Returned r => Returned r
  | Raised e =>
      match exn_cls e with
      | DisambiguationError =>
          Returned (mkFetchResult title []
                      (Some (str "Disambiguation: " ++ exn_str e)))
      | PageError =>
          Returned (mkFetchResult title []
                      (Some (str "PageError: " ++ exn_str e)))
      | HTTPTimeoutError =>
          Returned (mkFetchResult title []
                      (Some (str "Timeout: " ++ exn_str e)))
      | _ =>
          Returned (mkFetchResult title []
                      (Some (str "Unexpected: " ++ exn_str e)))
      end
  end.

Definition newline : pystr := [10%N].

Definition save_references (W : World) (result : FetchResult) (outdir : pystr)
  : M (option path) :=
  match error result with
  | Some _ => mret None
  | None =>
      let fn := safe_filename (title result) ++ str ".txt" in
      let path := (outdir, fn) in
      let text := join newline (references result) in
      write_text W path text;;
      mret (Some path)
  end.

(** ** Execution strategies *)

(** [f"{x}"] for a value that is a string or [None]. *)
Definition fmt_opt (x : option pystr) : pystr :=
  match x with
  | Some s => s
  | None => str "None"
  end.

(** The two status lines; the first character is U+2713 (check mark),
    respectively U+2013 (en dash). *)
Definition line_wrote (name : pystr) : pystr :=
  [10003%N] ++ str " wrote " ++ name.

Definition line_skipped (t detail : pystr) : pystr :=
  [8211%N] ++ str " skipped " ++ t ++ str " (" ++ detail ++ str ")".

Fixpoint run_sequential_loop (W : World) (outdir : pystr)
    (titles : list pystr) (ok skipped : Z) : M (Z * Z) :=
  match titles with
  | [] => mret (ok, skipped)
  | t :: titles' =>
      res ← lift (fetch_page_references W t);
      p ← save_references W res outdir;
      match p with
      | Some p =>
          print W (line_wrote p.2);;
          run_sequential_loop W outdir titles' (ok + 1) skipped
      | None =>
          print W (line_skipped t (fmt_opt (error res)));;
          run_sequential_loop W outdir titles' ok (skipped + 1)
      end
  end.

Definition run_sequential (W : World) (titles : list pystr) (outdir : pystr)
  : M (Z * Z) :=
  run_sequential_loop W outdir titles 0 0.

Definition _process_worker (W : World) (title outdir : pystr)
  : M (pystr * option pystr) :=
  res ← lift (fetch_page_references W title);
  match error res with
  | Some err => mret (title, Some err)
  | None =>
      p ← save_references W res outdir;
      mret (match p with Some p => p.2 | None => title end, None)
  end.

(** *** The worker pools

    [ThreadPoolExecutor] and [ProcessPoolExecutor] are modelled at their
    interface. [submit] creates one future per title, numbered in
    submission order (the dictionary [futures] maps the future [i] to
    [titles !! i]). The pool decides in which order the tasks take effect
    on the storage ([started]) and in which order [as_completed] hands the
    finished futures to the loop ([completed]); both are arguments of the
    run, and every permutation of the submitted futures is a possible
    value. An exception raised by a task is stored in its future and
    raised again by [fut.result()]. Tasks only touch the files and the
    loop only prints, so running the tasks before the loop gives the same
    final files and output as any interleaving of the two; when an
    exception leaves the loop, the [with] block still waits for every
    task. The write of a task is one step: of two tasks that write the
    same key, the later one leaves its bytes. Arguments and results of a process-pool task are strings
    and cross the process boundary unchanged. *)

Definition future := outcome (pystr * option pystr).

(** The constructor of both executors rejects a pool size that is not
    positive. *)
Definition Executor (max_workers : option Z) : M unit :=
  match max_workers with
  | Some n =>
      if n <=? 0
      then raise (Exn ValueError (str "max_workers must be greater than 0"))
      else mret ()
  | None => mret ()
  end.

(** The submitted tasks run [_process_worker] in the order [started]. *)
Fixpoint run_tasks (W : World) (outdir : pystr) (titles : list pystr)
    (started : list nat) (futs : gmap nat future) : M (gmap nat future) :=
  match started with
  | [] => mret futs
  | i :: started' =>
      match titles !! i with
      | Some t =>
          λ st,
            let '(o, st') := _process_worker W t outdir st in
            run_tasks W outdir titles started' (<[i := o]> futs) st'
      | None => run_tasks W outdir titles started' futs
      end
  end.

(** The loop of a pool keeps the two counters [ok] and [skipped] in local
    variables. A statement of the loop sees and changes them, and what it
    did to them before it raised is what the handler finds. *)
Definition Loop (A : Type) : Type :=
  Z * Z → State → outcome A * (Z * Z) * State.

#[global] Instance Loop_ret : MRet Loop := λ A a c st, (Returned a, c, st).
#[global] Instance Loop_bind : MBind Loop := λ A B f m c st,
  match m c st with
  | (Returned a, c', st') => f a c' st'
  | (Raised e, c', st') => (Raised e, c', st')
  end.

(** A statement that leaves the counters alone. *)
Definition stmt {A} (m : M A) : Loop A :=
  λ c st, let '(o, st') := m st in (o, c, st').

(** [ok += 1] and [skipped += 1] *)
Definition incr_ok : Loop unit :=
  λ c st, (Returned (), (c.1 + 1, c.2), st).

Definition incr_skipped : Loop unit :=
  λ c st, (Returned (), (c.1, c.2 + 1), st).

(** [try: body except Exception as e: handler e] *)
Definition try_except {A} (body : Loop A) (handler : exn → Loop A) : Loop A :=
  λ c st,
    match body c st with
    | (Returned a, c', st') => (Returned a, c', st')
    | (Raised e, c', st') => handler e c' st'
    end.

(** [ok = 0; skipped = 0; body; return ok, skipped] *)
Definition with_counters (body : Loop unit) : M (Z * Z) :=
  λ st,
    match body (0, 0) st with
    | (Returned _, c, st') => (Returned c, st')
    | (Raised e, _, st') => (Raised e, st')
    end.

(** [fut.result()] *)
Definition fut_result (fut : future) : Loop (pystr * option pystr) :=
  stmt (lift fut).

(** The loop [for fut in as_completed(futures)] of [run_threads]. *)
Fixpoint run_threads_loop (W : World) (titles : list pystr)
    (futs : gmap nat future) (completed : list nat) : Loop unit :=
  match completed with
  | [] => mret ()
  | i :: completed' =>
      match titles !! i, futs !! i with
      | Some title, Some fut =>
          try_except
            ('(name_or_title, err) ← fut_result fut;
             match err with
             | None =>
                 incr_ok;;
                 stmt (print W (line_wrote name_or_title))
             | Some err =>
                 incr_skipped;;
                 stmt (print W (line_skipped title err))
             end)
            (λ e,
               incr_skipped;;
               stmt (print W (line_skipped title
                                (str "thread error: " ++ exn_str e))));;
          run_threads_loop W titles futs completed'
      | _, _ => run_threads_loop W titles futs completed'
      end
  end.

Definition run_threads (W : World) (titles : list pystr) (outdir : pystr)
    (max_workers : option Z) (started completed : list nat) : M (Z * Z) :=
  Executor max_workers;;
  futs ← run_tasks W outdir titles started ∅;
  with_counters (run_threads_loop W titles futs completed).

(** The loop [for fut in as_completed(futures)] of [run_processes]. *)
Fixpoint run_processes_loop (W : World) (titles : list pystr)
    (futs : gmap nat future) (completed : list nat) : Loop unit :=
  match completed with
  | [] => mret ()
  | i :: completed' =>
      match titles !! i, futs !! i with
      | Some title, Some fut =>
          try_except
            ('(name_or_title, err) ← fut_result fut;
             match err with
             | None =>
                 incr_ok;;
                 stmt (print W (line_wrote name_or_title))
             | Some err =>
                 incr_skipped;;
                 stmt (print W (line_skipped title err))
             end)
            (λ e,
               incr_skipped;;
               stmt (print W (line_skipped title
                                (str "process error: " ++ exn_str e))));;
          run_processes_loop W titles futs completed'
      | _, _ => run_processes_loop W titles futs completed'
      end
  end.

Definition run_processes (W : World) (titles : list pystr) (outdir : pystr)
    (max_workers : option Z) (started completed : list nat) : M (Z * Z) :=
  Executor max_workers;;
  futs ← run_tasks W outdir titles started ∅;
  with_counters (run_processes_loop W titles futs completed).

(** A schedule of a batch of [n] tasks names every future once. *)
Definition schedule (n : nat) (order : list nat) : Prop := order ≡ₚ seq 0 n.

(** ** A stub scenario *)

Definition stub_page (t : pystr) : outcome WikipediaPage :=
  if decide (t = str "A") then
    Returned (mkPage (str "A") (Returned (Some [str "r1"; str "r2"])))
  else if decide (t = str "B") then
    Raised (Exn HTTPTimeoutError (str "timed out"))
  else if decide (t = str "C") then
    Returned (mkPage (str "C") (Returned (Some [])))
  else Raised (Exn PageError (str "no such page")).

Definition stub_search (term : pystr) : outcome (option (list pystr)) :=
  if decide (term = str "x")
  then Returned (Some [str "A"; str "B"; str "C"; str "D"])
  else Returned None.

Definition stub_world : World :=
  mkWorld stub_search stub_page (λ _, None)
    (λ _, str "surrogates not allowed") (λ _, None).

Definition empty_state : State := mkState ∅ [].

Definition ABC : list pystr := [str "A"; str "B"; str "C"].

(** The bytes of the two lines [r1] and [r2]. *)
Definition r1_r2 : string := String.append "r1" (String "010" "r2").

(** A scenario with a storage fault: every title has a page with one
    reference, and the storage refuses to open [B.txt]. *)
Definition faulty_storage_world : World :=
  mkWorld
    (λ _, Returned None)
    (λ t, Returned (mkPage t (Returned (Some [str "https://example.org/"]))))
    (λ p, if decide (p.2 = str "B.txt")
          then Some (Exn OSError (str "[Errno 13] Permission denied"))
          else None)
    (λ _, str "surrogates not allowed") (λ _, None).

(** ** The rest of the program: settings, the search term, the driver *)

Definition DEFAULT_TERM : pystr := str "generative artificial intelligence".
Definition OUTPUT_DIR : pystr := str "wiki_dl".
Definition MAX_DEFAULT : Z := 10.

(** [term] is a string or [None]; the empty string and [None] are the two
    values that [not term] accepts. *)
Definition coerce_search_term (term : option pystr) : pystr :=
  match term with
  | None | Some [] => DEFAULT_TERM
  | Some term =>
      let term := strip term in
      if (length term <? 4)%nat then DEFAULT_TERM else term
  end.

(** The machine around the driver, fixed during a run:
    - [input_line prompt] is what [input(prompt)] reads (or the error it
      raises at the end of the input);
    - [mkdir_error p] is the error (if any) of
      [p.mkdir(parents=True, exist_ok=True)];
    - [resolved p] is the text of [p.resolve()];
    - [elapsed] is the text of the difference of the two readings of
      [time.perf_counter()] in the format [.2f]. *)
Record Host := mkHost {
  input_line : pystr → outcome pystr;
  mkdir_error : pystr → option exn;
  resolved : pystr → pystr;
  elapsed : pystr
}.

Definition ensure_dir (H : Host) (path : pystr) : M pystr :=
  match mkdir_error H path with
  | Some e => raise e
  | None => mret path
  end.

(** [input(prompt)]: the prompt goes to the standard output. *)
Definition input (H : Host) (prompt : pystr) : M pystr :=
  λ st, (input_line H prompt, mkState (files st) (stdout st ++ [prompt])).

(** [f"{n}"] for an integer. *)
Definition fmt_int (n : Z) : pystr := str (pretty n).

(** The parsed command line. *)
Record Namespace := mkNamespace {
  args_term : option pystr;
  args_mode : pystr;
  args_max : Z;
  args_workers : option Z;
  args_outdir : pystr
}.

(** [x or y] on strings: [x] unless it is [None] or empty. *)
Definition truthy (x : option pystr) : option pystr :=
  match x with
  | Some (c :: s) => Some (c :: s)
  | _ => None
  end.

(** [main], from the parsed arguments on; [started] and [completed] are
    the schedule of the pool when the mode selects one. *)
Definition main (H : Host) (W : World) (args : Namespace)
    (started completed : list nat) : M unit :=
  term ← match truthy (args_term args) with
         | Some term => mret term
         | None => input H (str "Enter a search term: ")
         end;
  let term := coerce_search_term (Some term) in
  outdir ← ensure_dir H (args_outdir args);
  print W (str "Searching Wikipedia for related pages to: '" ++ term ++ str "'");;
  titles ← lift (search_related W term (args_max args));
  match titles with
  | [] => print W (str "No related pages found. Nothing to do.")
  | _ =>
      print W (str "Processing " ++ fmt_int (Z.of_nat (length titles))
             ++ str " page(s) " ++ [8594%N] ++ str " saving .txt files to "
             ++ resolved H outdir ++ newline);;
      '(ok, skipped) ←
        (if decide (args_mode args = str "seq") then
           run_sequential W titles outdir
         else if decide (args_mode args = str "threads") then
           run_threads W titles outdir (args_workers args) started completed
         else
           run_processes W titles outdir (args_workers args) started completed);
      print W (newline ++ str "Summary:");;
      print W (str "  wrote:   " ++ fmt_int ok);;
      print W (str "  skipped: " ++ fmt_int skipped);;
      print W (str "  elapsed: " ++ elapsed H ++ str " s")
  end.

(** A scenario in which every title has a page of that title whose only
    reference is the title itself, over a storage without faults. *)
Definition echo_world : World :=
  mkWorld
    (λ _, Returned None)
    (λ t, Returned (mkPage t (Returned (Some [t]))))
    (λ _, None)
    (λ _, str "surrogates not allowed") (λ _, None).

(** A scenario for the driver: the search answers every term with four
    titles, the pages are those of the stub; the prompt gives a term, the
    directory can be made. *)
Definition driver_world : World :=
  mkWorld
    (λ _, Returned (Some [str "A"; str "B"; str "C"; str "D"]))
    stub_page (λ _, None) (λ _, str "surrogates not allowed") (λ _, None).

Definition driver_host : Host :=
  mkHost (λ _, Returned (str " wiki ")) (λ _, None)
    (λ p, str "/home/user/" ++ p) (str "0.01").

Definition driver_args : Namespace :=
  mkNamespace None (str "threads") 3 None OUTPUT_DIR.

(** A standard output in GBK (code page 936): the encoding has the en
    dash and the arrow of the lines of the program but not the check mark
    (U+2713). The check mark decides every line of the scenarios below, so
    that is the one character refused here; the error text is the one of
    the codec. *)
Definition gbk_error (line : pystr) : option exn :=
  match list_find (λ c, c = 10003%N) line with
  | Some (i, _) =>
      Some (Exn UnicodeEncodeError
              (str "'gbk' codec can't encode character '\u2713' in position "
               ++ fmt_int (Z.of_nat i)
               ++ str ": illegal multibyte sequence"))
  | None => None
  end.

(** The stub scenario and the scenario of the driver on that output. *)
Definition gbk_world : World :=
  mkWorld stub_search stub_page (λ _, None)
    (λ _, str "surrogates not allowed") gbk_error.

Definition gbk_driver_world : World :=
  mkWorld
    (λ _, Returned (Some [str "A"; str "B"; str "C"; str "D"]))
    stub_page (λ _, None) (λ _, str "surrogates not allowed") gbk_error.

(** ** Notions used by the statements *)

(** White space of a sanitized name: every white-space character is a plain
    space and is followed by a character that is not white space (or by
    the end of the string). *)
Fixpoint ws_normal (s : pystr) : Prop :=
  match s with
  | [] => True
  | c :: s' =>
      (is_space c = true →
       c = 32%N ∧ match s' with [] => True | d :: _ => is_space d = false end)
      ∧ ws_normal s'
  end.

Definition head_not_space (s : pystr) : Prop :=
  match s with
  | [] => True
  | c :: _ => is_space c = false
  end.

(** The failure of the content source on [t], if there is one: the call
    [wikipedia.page] raises, or reading [page.references] does. *)
Definition source_failure (W : World) (t : pystr) : option exn :=
  match wikipedia_page W t with
  | Raised e => Some e
  | Returned page =>
      match page_references page with
      | Raised e => Some e
      | Returned _ => None
      end
  end.

(** The outcome of the item processor on [t] (it always returns one, see
    [fetch_page_references_returns]). *)
Definition fetched (W : World) (t : pystr) : FetchResult :=
  match fetch_page_references W t with
  | Returned r => r
  | Raised _ => mkFetchResult t [] None
  end.

(** The file a Success outcome is persisted to. *)
Definition target (outdir : pystr) (r : FetchResult) : path :=
  (outdir, safe_filename (title r) ++ str ".txt").

(** What persisting the outcome [r] does: the file it leaves behind (with
    its bytes), if any, and what the call returns or raises. *)
Definition persist_write (W : World) (outdir : pystr) (r : FetchResult)
  : option (path * string) :=
  match error r with
  | Some _ => None
  | None =>
      match open_error W (target outdir r) with
      | Some _ => None
      | None =>
          Some (target outdir r,
                default EmptyString
                  (utf8_encode (join newline (references r))))
      end
  end.

Definition persist_result (W : World) (outdir : pystr) (r : FetchResult)
  : outcome (option path) :=
  match error r with
  | Some _ => Returned None
  | None =>
      match open_error W (target outdir r) with
      | Some e => Raised e
      | None =>
          match utf8_encode (join newline (references r)) with
          | Some _ => Returned (Some (target outdir r))
          | None =>
              Raised (Exn UnicodeEncodeError
                        (encode_error W (join newline (references r))))
          end
      end
  end.

Definition write_files (w : option (path * string))
    (fs : gmap path string) : gmap path string :=
  match w with
  | Some (p, bytes) => <[p := bytes]> fs
  | None => fs
  end.

Definition apply_write (w : option (path * string)) (st : State) : State :=
  mkState (write_files w (files st)) (stdout st).

(** The per-item pipeline on the identifier [t]: what persisting its
    outcome returns, and the file it writes. *)
Definition item_result (W : World) (outdir t : pystr) : outcome (option path) :=
  persist_result W outdir (fetched W t).

Definition task_write (W : World) (outdir t : pystr) : option (path * string) :=
  persist_write W outdir (fetched W t).

(** The files after the items [ts] were persisted in this order. *)
Definition run_writes (W : World) (outdir : pystr) (ts : list pystr)
    (fs : gmap path string) : gmap path string :=
  foldl (λ fs t, write_files (task_write W outdir t) fs) fs ts.

(** Whether an item counts as written, and the two tallies of a batch. *)
Definition item_ok (W : World) (outdir t : pystr) : bool :=
  match item_result W outdir t with
  | Returned (Some _) => true
  | _ => false
  end.

Fixpoint count_ok {A} (f : A → bool) (l : list A) : Z :=
  match l with
  | [] => 0
  | x :: l' => (if f x then 1 else 0) + count_ok f l'
  end.

Fixpoint count_skipped {A} (f : A → bool) (l : list A) : Z :=
  match l with
  | [] => 0
  | x :: l' => (if f x then 0 else 1) + count_skipped f l'
  end.

(** The status line of the sequential strategy for [t]. *)
Definition seq_line (W : World) (outdir t : pystr) : pystr :=
  match item_result W outdir t with
  | Returned (Some p) => line_wrote p.2
  | _ => line_skipped t (fmt_opt (error (fetched W t)))
  end.

(** What the task of a pool does on [t]: the content of its future. *)
Definition worker_result (W : World) (outdir t : pystr) : future :=
  match error (fetched W t) with
  | Some err => Returned (t, Some err)
  | None =>
      match item_result W outdir t with
      | Returned q => Returned (match q with Some p => p.2 | None => t end, None)
      | Raised e => Raised e
      end
  end.

(** A pool size the constructor of an executor accepts. *)
Definition pool_size_ok (max_workers : option Z) : Prop :=
  match max_workers with
  | Some n => 0 < n
  | None => True
  end.

(** How the loop of a pool counts and reports a finished future of the
    title [t]; [label] is the text put before the error of a crashed task. *)
Definition pool_ok (fut : future) : bool :=
  match fut with
  | Returned (_, None) => true
  | _ => false
  end.

Definition pool_line (label : pystr) (tf : pystr * future) : pystr :=
  match tf.2 with
  | Returned (name, None) => line_wrote name
  | Returned (_, Some err) => line_skipped tf.1 err
  | Raised e => line_skipped tf.1 (label ++ exn_str e)
  end.

(** The futures the loop of a pool receives, with their titles. *)
Definition delivered (titles : list pystr) (futs : gmap nat future)
    (completed : list nat) : list (pystr * future) :=
  omap (λ i, match titles !! i, futs !! i with
             | Some t, Some f => Some (t, f)
             | _, _ => None
             end) completed.

(** The futures of the tasks named by [order], each with the result of its
    own task. *)
Definition submitted (W : World) (outdir : pystr) (titles : list pystr)
    (order : list nat) : list (pystr * future) :=
  omap (λ i, (λ t, (t, worker_result W outdir t)) <$> titles !! i) order.

Definition task_futures (W : World) (outdir : pystr) (titles : list pystr)
    (started : list nat) (futs : gmap nat future) : gmap nat future :=
  foldl (λ m i, match titles !! i with
                | Some t => <[i := worker_result W outdir t]> m
                | None => m
                end) futs started.

(** Persisting the outcome of [t] returns (the storage opens the file and
    the text can be encoded, or there is nothing to persist). *)
Definition persist_returns (W : World) (outdir t : pystr) : Prop :=
  ∀ r st, fetch_page_references W t = Returned r →
    ∃ q st', save_references W r outdir st = (Returned q, st').

(** A run that returns a Batch Aggregate for [n] identifiers. *)
Definition aggregate_of (n : nat) (run : outcome (Z * Z) * State) : Prop :=
  ∃ ok skipped,
    run.1 = Returned (ok, skipped)
    ∧ ok + skipped = Z.of_nat n ∧ 0 ≤ ok ∧ 0 ≤ skipped.

(** The storage keys the tasks of a batch write. *)
Definition written_keys (W : World) (outdir : pystr) (titles : list pystr)
  : gset path :=
  list_to_set (omap (λ t, fst <$> task_write W outdir t) titles).

(** The schedule of a batch without its task [i]: the future [i] is left
    out and the futures after it are numbered one lower. *)
Definition renumber (i j : nat) : option nat :=
  if decide (j = i) then None
  else Some (if decide (j < i)%nat then j else pred j).

Definition drop_task (i : nat) (order : list nat) : list nat :=
  omap (renumber i) order.

(** A name that needs no sanitizing. *)
Definition clean_name (s : pystr) : Prop :=
  Forall (λ c, is_illegal c = false) s
  ∧ ws_normal s ∧ head_not_space s ∧ rstrip s = s ∧ (length s ≤ 150)%nat.

(** The bytes that the last of the tasks [ts] that touches the key [p]
    leaves there (nothing when no task touches it). *)
Fixpoint last_write (W : World) (outdir : pystr) (p : path)
    (ts : list pystr) : option string :=
  match ts with
  | [] => None
  | t :: ts' =>
      match last_write W outdir p ts' with
      | Some bytes => Some bytes
      | None =>
          match task_write W outdir t with
          | Some (q, bytes) => if decide (q = p) then Some bytes else None
          | None => None
          end
      end
  end.

(** Whether the content source answers [t] without failure. *)
Definition source_ok (W : World) (t : pystr) : bool :=
  match source_failure W t with
  | None => true
  | Some _ => false
  end.

(** The error with which the constructor of an executor rejects a pool
    size. *)
Definition pool_size_error : exn :=
  Exn ValueError (str "max_workers must be greater than 0").

(** The driver gets the term [t0] from the command line or, when there
    is none, from the prompt; [asked] is the state once it has the term. *)
Definition term_read (H : Host) (args : Namespace) (t0 : pystr) : Prop :=
  truthy (args_term args) = Some t0
  ∨ (truthy (args_term args) = None
     ∧ input_line H (str "Enter a search term: ") = Returned t0).

Definition asked (args : Namespace) (st : State) : State :=
  match truthy (args_term args) with
  | Some _ => st
  | None => mkState (files st) (stdout st ++ [str "Enter a search term: "])
  end.

(** The standard output accepts every line. *)
Definition stdout_accepts (W : World) : Prop :=
  ∀ line, print_error W line = None.

(** What the sequential strategy does with [t]: the result of the persist
    step, unless that step raises or the status line is refused. *)
Definition seq_result (W : World) (outdir t : pystr) : outcome (option path) :=
  match item_result W outdir t with
  | Raised e => Raised e
  | Returned q =>
      match print_error W (seq_line W outdir t) with
      | Some e => Raised e
      | None => Returned q
      end
  end.

(** What one turn of the loop of a pool does with a finished future of
    the title [tf.1]: whether it ends or raises, what it adds to [ok] and
    to [skipped], and the lines it prints. *)
Definition pool_handler (W : World) (label title : pystr) (e : exn)
    (inc : Z * Z) : outcome unit * (Z * Z) * list pystr :=
  let line := line_skipped title (label ++ exn_str e) in
  match print_error W line with
  | None => (Returned (), (inc.1, inc.2 + 1), [line])
  | Some e' => (Raised e', (inc.1, inc.2 + 1), [])
  end.

Definition pool_step (W : World) (label : pystr) (tf : pystr * future)
  : outcome unit * (Z * Z) * list pystr :=
  match tf.2 with
  | Raised e => pool_handler W label tf.1 e (0, 0)
  | Returned (name, None) =>
      match print_error W (line_wrote name) with
      | None => (Returned (), (1, 0), [line_wrote name])
      | Some e => pool_handler W label tf.1 e (1, 0)
      end
  | Returned (_, Some err) =>
      match print_error W (line_skipped tf.1 err) with
      | None => (Returned (), (0, 1), [line_skipped tf.1 err])
      | Some e => pool_handler W label tf.1 e (0, 1)
      end
  end.

Fixpoint pool_trace (W : World) (label : pystr) (d : list (pystr * future))
  : outcome unit * (Z * Z) * list pystr :=
  match d with
  | [] => (Returned (), (0, 0), [])
  | tf :: d' =>
      match pool_step W label tf with
      | (Returned _, inc, ls) =>
          let '(o, inc', ls') := pool_trace W label d' in
          (o, (inc.1 + inc'.1, inc.2 + inc'.2), ls ++ ls')
      | (Raised e, inc, ls) => (Raised e, inc, ls)
      end
  end.

(** One turn of the loop of a pool, in the proof that is common to the
    two pools. *)
Ltac pool_turn IH :=
  repeat first
    [ progress (unfold mbind at 1, Loop_bind at 1; cbn [fst snd])
    | progress (unfold print at 1)
    | match goal with
      | |- context [match print_error ?W ?l with _ => _ end] =>
          destruct (print_error W l)
      end ];
  try rewrite IH;
  try match goal with
      | |- context [pool_trace ?W ?l ?d] =>
          destruct (pool_trace W l d) as [[? [? ?]] ?]
      end;
  cbn [fst snd files stdout]; rewrite ?app_nil_r, <- ?app_assoc;
  do 3 f_equal; lia.

(** * Properties *)

(** ** [safe_filename] *)

Example safe_filename_ex1 :
  safe_filename (str "  AC/DC:  live?? ") = str "AC_DC_ live_".
Proof. reflexivity. Qed.

Example safe_filename_ex2 :
  safe_filename (replicate 149 97%N ++ str " b c")
  = replicate 149 97%N.
Proof. reflexivity. Qed.

Section regex_sub.
Variables (cls : N → bool) (repl : pystr).

Lemma sub_runs_id (b : bool) (s : pystr) :
  Forall (λ c, cls c = false) s → sub_runs cls repl b s = s.
Proof.
  intros H; revert b; induction H as [|c s Hc _ IH]; intros b; simpl; [done|].
  by rewrite Hc, IH.
Qed.

Lemma sub_runs_Forall (P : N → Prop) (b : bool) (s : pystr) :
  Forall P repl → Forall P s → Forall P (sub_runs cls repl b s).
Proof.
  intros Hr H; revert b; induction H as [|c s Hc _ IH]; intros b; simpl; [done|].
  destruct (cls c); [destruct b|]; auto using Forall_app_2.
Qed.

Lemma sub_runs_outside (b : bool) (s : pystr) :
  Forall (λ c, cls c = false) repl →
  Forall (λ c, cls c = false) (sub_runs cls repl b s).
Proof.
  intros Hr; revert b; induction s as [|c s IH]; intros b; simpl; [done|].
  destruct (cls c) eqn:Hc; [destruct b|]; auto using Forall_app_2.
Qed.

End regex_sub.

Lemma sub_space_normal (s : pystr) :
  ws_normal (sub_runs is_space [32%N] false s)
  ∧ ws_normal (sub_runs is_space [32%N] true s)
  ∧ head_not_space (sub_runs is_space [32%N] true s).
Proof.
  induction s as [|c s (IH1 & IH2 & IH3)]; simpl; [done|].
  destruct (is_space c) eqn:Hc; simpl.
  - repeat split; try done.
    all: intros _; split; [done|]; exact IH3.
  - rewrite Hc. repeat split; try done; congruence.
Qed.

Lemma sub_space_id (s : pystr) :
  ws_normal s →
  sub_runs is_space [32%N] false s = s
  ∧ (head_not_space s → sub_runs is_space [32%N] true s = s).
Proof.
  induction s as [|c s IH]; simpl; [done|].
  intros [Hc Hs]. destruct (IH Hs) as [IH1 IH2].
  destruct (is_space c) eqn:Hsp.
  - destruct (Hc eq_refl) as [-> Hnext]. split; [|done].
    simpl. f_equal. apply IH2. by destruct s.
  - split; [|intros _]; by rewrite IH1.
Qed.

Lemma ws_normal_app (s k : pystr) : ws_normal (s ++ k) → ws_normal s.
Proof.
  induction s as [|c s IH]; simpl; [done|].
  intros [Hc Hs]; split; [|auto].
  intros Hsp. destruct (Hc Hsp) as [-> Hn]. split; [done|]. by destruct s.
Qed.

Lemma ws_normal_lstrip (s : pystr) : ws_normal s → ws_normal (lstrip s).
Proof.
  induction s as [|c s IH]; simpl; [done|].
  intros [Hc Hs]. destruct (is_space c) eqn:Hsp; [auto|].
  simpl. split; [congruence|done].
Qed.

Lemma head_not_space_lstrip (s : pystr) : head_not_space (lstrip s).
Proof.
  induction s as [|c s IH]; simpl; [done|].
  by destruct (is_space c) eqn:Hc.
Qed.

Lemma lstrip_id (s : pystr) : head_not_space s → lstrip s = s.
Proof. destruct s as [|c s]; simpl; [done|]. by intros ->. Qed.

Lemma Forall_lstrip (P : N → Prop) (s : pystr) : Forall P s → Forall P (lstrip s).
Proof.
  induction 1 as [|c s Hc Hs IH]; simpl; [done|].
  destruct (is_space c); auto.
Qed.

Lemma rstrip_prefix (s : pystr) : ∃ k, s = rstrip s ++ k.
Proof.
  induction s as [|c s [k Hk]]; simpl; [by exists []|].
  destruct (rstrip s) as [|d r] eqn:Hr.
  - destruct (is_space c).
    + by exists (c :: s).
    + exists s. done.
  - exists k. simpl. by rewrite Hk at 1.
Qed.

Lemma rstrip_idem (s : pystr) : rstrip (rstrip s) = rstrip s.
Proof.
  induction s as [|c s IH]; simpl; [done|].
  destruct (rstrip s) as [|d r] eqn:Hr.
  - destruct (is_space c) eqn:Hc; simpl; [done|]. by rewrite Hc.
  - change (rstrip (c :: d :: r)) with
      (match rstrip (d :: r) with
       | [] => if is_space c then [] else [c]
       | r' => c :: r'
       end).
    by rewrite IH.
Qed.

Lemma head_not_space_app (s k : pystr) :
  head_not_space (s ++ k) → head_not_space s.
Proof. by destruct s. Qed.

(** What every result of [safe_filename] looks like. *)
Lemma safe_filename_shape (s : pystr) :
  let o := safe_filename s in
  Forall (λ c, is_illegal c = false) o
  ∧ ws_normal o ∧ head_not_space o ∧ rstrip o = o ∧ (length o ≤ 150)%nat.
Proof.
  unfold safe_filename, strip, re_sub_plus; simpl.
  set (s1 := sub_runs is_illegal (str "_") false s).
  set (s2 := sub_runs is_space (str " ") false s1).
  set (s3 := rstrip (lstrip s2)).
  assert (H1 : Forall (λ c, is_illegal c = false) s1).
  { apply sub_runs_outside. by repeat constructor. }
  assert (H2 : Forall (λ c, is_illegal c = false) s2).
  { apply sub_runs_Forall; [by repeat constructor|done]. }
  assert (N2 : ws_normal s2) by apply sub_space_normal.
  destruct (rstrip_prefix (lstrip s2)) as [k3 Hk3]. fold s3 in Hk3.
  destruct (rstrip_prefix (take 150 s3)) as [k4 Hk4].
  assert (Hl : Forall (λ c, is_illegal c = false) (lstrip s2) ∧
               ws_normal (lstrip s2) ∧ head_not_space (lstrip s2)).
  { auto using Forall_lstrip, ws_normal_lstrip, head_not_space_lstrip. }
  rewrite Hk3 in Hl. destruct Hl as (F3 & N3 & D3).
  apply Forall_app in F3 as [F3 _]. apply ws_normal_app in N3.
  apply head_not_space_app in D3.
  rewrite <- (take_drop 150 s3) in F3, N3, D3.
  apply Forall_app in F3 as [F3 _]. apply ws_normal_app in N3.
  apply head_not_space_app in D3.
  rewrite Hk4 in F3, N3, D3.
  apply Forall_app in F3 as [F3 _]. apply ws_normal_app in N3.
  apply head_not_space_app in D3.
  repeat split; try done.
  - apply rstrip_idem.
  - transitivity (length (take 150 s3)).
    + rewrite Hk4 at 2. rewrite length_app. lia.
    + rewrite length_take. lia.
Qed.

(** C10. [safe_filename] is idempotent, its result has at most 150
    characters, and none of them is one of the nine characters the first
    substitution removes (backslash, slash, colon, star, question mark,
    double quote, angle brackets, bar). *)
Theorem C10_safe_filename_idempotent (s : pystr) :
  safe_filename (safe_filename s) = safe_filename s
  ∧ (length (safe_filename s) ≤ 150)%nat
  ∧ ∀ c, c ∈ illegal_chars → c ∉ safe_filename s.
Proof.
  destruct (safe_filename_shape s) as (F & Nw & D & R & L); simpl in *.
  split; [|split; [done|]].
  - set (o := safe_filename s) in *.
    unfold safe_filename at 1, strip, re_sub_plus.
    rewrite (sub_runs_id _ _ _ o F).
    change (str " ") with [32%N].
    destruct (sub_space_id o Nw) as [-> _].
    rewrite (lstrip_id o D), R, take_ge by done. done.
  - intros c Hc Hin.
    rewrite Forall_forall in F. specialize (F c Hin).
    unfold is_illegal in F. by apply bool_decide_eq_false in F.
Qed.

(** ** The item processor *)

Lemma fetch_page_references_returns (W : World) (t : pystr) :
  fetch_page_references W t = Returned (fetched W t).
Proof.
  unfold fetched, fetch_page_references.
  destruct (wikipedia_page W t) as [page|e]; simpl.
  - destruct (page_references page) as [refs|e]; simpl; [done|].
    by destruct (exn_cls e).
  - by destruct (exn_cls e).
Qed.

Lemma fetch_failure (W : World) (t : pystr) (e : exn) :
  source_failure W t = Some e →
  ∃ label,
    fetch_page_references W t
      = Returned (mkFetchResult t [] (Some (label ++ exn_str e)))
    ∧ (exn_cls e = DisambiguationError → label = str "Disambiguation: ")
    ∧ (exn_cls e = PageError → label = str "PageError: ")
    ∧ (exn_cls e = HTTPTimeoutError → label = str "Timeout: ")
    ∧ (exn_cls e ∉ [DisambiguationError; PageError; HTTPTimeoutError] →
       label = str "Unexpected: ").
Proof.
  unfold source_failure, fetch_page_references.
  destruct (wikipedia_page W t) as [page|e']; cbn.
  - destruct (page_references page) as [refs|e']; cbn; [done|].
    intros [= ->].
    destruct (exn_cls e) eqn:Hc; eexists; (split; [reflexivity|]);
      repeat split; try done; intros Hn; exfalso; apply Hn; set_solver.
  - intros [= ->].
    destruct (exn_cls e) eqn:Hc; eexists; (split; [reflexivity|]);
      repeat split; try done; intros Hn; exfalso; apply Hn; set_solver.
Qed.

Lemma fetch_success (W : World) (t : pystr) :
  source_failure W t = None →
  ∃ page refs,
    wikipedia_page W t = Returned page
    ∧ page_references page = Returned refs
    ∧ fetch_page_references W t
      = Returned (mkFetchResult (page_title page) (or_empty refs) None).
Proof.
  unfold source_failure, fetch_page_references.
  destruct (wikipedia_page W t) as [page|e']; simpl; [|done].
  destruct (page_references page) as [refs|e'] eqn:Hr; simpl; [|done].
  intros _. exists page, refs. by rewrite Hr.
Qed.

(** C2. The item processor never raises: on every identifier it returns a
    FetchResult, and every failure of the content source (disambiguation,
    page not found, timeout, any other exception) ends up in the [error]
    field as a detail string: a label for the kind of failure followed by
    the text of the exception. *)
Theorem C2_fetch_never_raises (W : World) (t : pystr) :
  ∃ r, fetch_page_references W t = Returned r
    ∧ ∀ e, source_failure W t = Some e →
        ∃ label, error r = Some (label ++ exn_str e)
          ∧ (exn_cls e = DisambiguationError → label = str "Disambiguation: ")
          ∧ (exn_cls e = PageError → label = str "PageError: ")
          ∧ (exn_cls e = HTTPTimeoutError → label = str "Timeout: ")
          ∧ (exn_cls e ∉ [DisambiguationError; PageError; HTTPTimeoutError] →
             label = str "Unexpected: ").
Proof.
  exists (fetched W t). split; [apply fetch_page_references_returns|].
  intros e He. destruct (fetch_failure W t e He) as (label & Hf & Hl).
  exists label. split; [|exact Hl].
  unfold fetched. by rewrite Hf.
Qed.

(** C9. When the fetch of an identifier fails, the FetchResult carries the
    requested identifier unchanged as its title and an empty list of
    references; a result whose title differs from the request or whose
    references are not empty is a success (no error, no failure of the
    source). *)
Theorem C9_failure_keeps_identifier (W : World) (t : pystr) :
  (∀ e, source_failure W t = Some e →
     ∃ detail,
       fetch_page_references W t = Returned (mkFetchResult t [] (Some detail)))
  ∧ (∀ r, fetch_page_references W t = Returned r →
       (error r ≠ None → title r = t ∧ references r = [])
       ∧ (title r ≠ t ∨ references r ≠ [] →
          error r = None ∧ source_failure W t = None)).
Proof.
  split.
  - intros e He. destruct (fetch_failure W t e He) as (label & Hf & _). eauto.
  - intros r Hr.
    destruct (source_failure W t) as [e|] eqn:Hs.
    + destruct (fetch_failure W t e Hs) as (label & Hf & _).
      rewrite Hf in Hr. injection Hr as <-. simpl.
      split; [done|]. intros [?|?]; done.
    + destruct (fetch_success W t Hs) as (page & refs & _ & _ & Hf).
      rewrite Hf in Hr. injection Hr as <-. simpl. done.
Qed.

(** ** The result sink *)

Example utf8_ascii : utf8_encode (str "r1") = Some "r1"%string.
Proof. reflexivity. Qed.

Example utf8_two_bytes :
  utf8_encode [233%N] = Some (String "195" (String "169" EmptyString)).
Proof. reflexivity. Qed.

Example utf8_three_bytes :
  utf8_encode [8364%N]
  = Some (String "226" (String "130" (String "172" EmptyString))).
Proof. reflexivity. Qed.

Example utf8_four_bytes :
  utf8_encode [128512%N]
  = Some (String "240" (String "159" (String "152" (String "128" EmptyString)))).
Proof. reflexivity. Qed.

Example utf8_surrogate : utf8_encode [55296%N] = None.
Proof. reflexivity. Qed.

Lemma save_references_run (W : World) (r : FetchResult) (outdir : pystr)
    (st : State) :
  save_references W r outdir st
  = (persist_result W outdir r, apply_write (persist_write W outdir r) st).
Proof.
  unfold save_references, persist_result, persist_write, apply_write.
  destruct st as [fs out]; simpl.
  destruct (error r) as [err|]; [done|].
  fold (target outdir r).
  unfold mbind, M_bind, write_text.
  destruct (open_error W (target outdir r)) as [e|]; [done|].
  by destruct (utf8_encode (join newline (references r))).
Qed.

(** C8. A Success outcome that is persisted leaves exactly one file: its
    name is the sanitized canonical title followed by [.txt], its content
    is the UTF-8 encoding of the references joined by newlines and nothing
    else, and no other file (and no output) changes. When the storage
    opens the file and the text can be encoded, the outcome is persisted. *)
Theorem C8_persisted_artifact (W : World) (r : FetchResult) (outdir : pystr)
    (st : State) :
  error r = None →
  let p := (outdir, safe_filename (title r) ++ str ".txt") in
  let text := join newline (references r) in
  (∀ bytes,
     open_error W p = None → utf8_encode text = Some bytes →
     save_references W r outdir st
     = (Returned (Some p), mkState (<[p := bytes]> (files st)) (stdout st)))
  ∧ (∀ q st',
       save_references W r outdir st = (Returned q, st') →
       q = Some p
       ∧ ∃ bytes, utf8_encode text = Some bytes
           ∧ st' = mkState (<[p := bytes]> (files st)) (stdout st)).
Proof.
  intros Herr p text. rewrite save_references_run.
  unfold persist_result, persist_write, target. fold p. fold text.
  rewrite Herr. split.
  - intros bytes -> ->. done.
  - intros q st'. destruct (open_error W p) as [e|]; [done|].
    destruct (utf8_encode text) as [bytes|]; [|done].
    intros [= <- <-]. split; [done|]. by exists bytes.
Qed.

Lemma C8_witness :
  save_references stub_world
    (mkFetchResult (str "AC/DC") [str "r1"; str "r2"] None)
    (str "wiki_dl") empty_state
  = (Returned (Some (str "wiki_dl", str "AC_DC.txt")),
     mkState (<[(str "wiki_dl", str "AC_DC.txt") := r1_r2]> ∅) []).
Proof.
  exact (proj1 (C8_persisted_artifact stub_world
                  (mkFetchResult (str "AC/DC") [str "r1"; str "r2"] None)
                  (str "wiki_dl") empty_state eq_refl)
           r1_r2 eq_refl eq_refl).
Defined.

Lemma save_references_failure (W : World) (r : FetchResult) (outdir : pystr)
    (st : State) :
  error r ≠ None → save_references W r outdir st = (Returned None, st).
Proof.
  intros Herr. unfold save_references.
  by destruct (error r).
Qed.

(** ** One item under both kinds of strategy *)

Lemma process_worker_run (W : World) (t outdir : pystr) (st : State) :
  _process_worker W t outdir st
  = (worker_result W outdir t, apply_write (task_write W outdir t) st).
Proof.
  unfold _process_worker, worker_result, task_write, item_result.
  unfold mbind, M_bind, lift.
  rewrite fetch_page_references_returns.
  destruct (error (fetched W t)) as [err|] eqn:Herr.
  - unfold persist_write, apply_write. rewrite Herr. by destruct st.
  - rewrite save_references_run.
    by destruct (persist_result W outdir (fetched W t)).
Qed.

Lemma item_result_cases (W : World) (outdir t : pystr) :
  (∃ err, error (fetched W t) = Some err
          ∧ item_result W outdir t = Returned None)
  ∨ (error (fetched W t) = None
     ∧ item_result W outdir t = Returned (Some (target outdir (fetched W t))))
  ∨ (error (fetched W t) = None ∧ ∃ e, item_result W outdir t = Raised e).
Proof.
  unfold item_result, persist_result.
  destruct (error (fetched W t)) as [err|]; [left; eauto|right].
  destruct (open_error _ _) as [e|]; [right; eauto|].
  destruct (utf8_encode _); [left|right]; eauto.
Qed.

Lemma pool_ok_worker (W : World) (outdir t : pystr) :
  match worker_result W outdir t with
  | Returned (_, None) => true
  | _ => false
  end = item_ok W outdir t.
Proof.
  unfold worker_result, item_ok.
  destruct (item_result_cases W outdir t)
    as [(err & -> & ->)|[(-> & ->)|(-> & e & ->)]]; done.
Qed.

Lemma count_ok_skipped {A} (f : A → bool) (l : list A) :
  0 ≤ count_ok f l ∧ 0 ≤ count_skipped f l
  ∧ count_ok f l + count_skipped f l = Z.of_nat (length l).
Proof.
  induction l as [|x l IH]; simpl length; simpl count_ok; simpl count_skipped;
    [done|].
  destruct (f x); lia.
Qed.

Lemma count_ok_perm {A} (f : A → bool) (l k : list A) :
  l ≡ₚ k → count_ok f l = count_ok f k ∧ count_skipped f l = count_skipped f k.
Proof.
  induction 1 as [|x l k _ IH|x y l|l k m _ IH1 _ IH2]; simpl.
  - done.
  - destruct IH as [-> ->]. done.
  - split; lia.
  - destruct IH1 as [-> ->]. done.
Qed.

Lemma count_ok_app {A} (f : A → bool) (l k : list A) :
  count_ok f (l ++ k) = count_ok f l + count_ok f k
  ∧ count_skipped f (l ++ k) = count_skipped f l + count_skipped f k.
Proof.
  induction l as [|x l [IH1 IH2]]; simpl; [done|].
  rewrite IH1, IH2. split; lia.
Qed.

Lemma run_writes_app (W : World) (outdir : pystr) (ts ts' : list pystr)
    (fs : gmap path string) :
  run_writes W outdir (ts ++ ts') fs
  = run_writes W outdir ts' (run_writes W outdir ts fs).
Proof. apply foldl_app. Qed.

(** ** The sequential strategy *)

Lemma seq_result_returned (W : World) (outdir t : pystr) (q : option path) :
  seq_result W outdir t = Returned q ↔
  item_result W outdir t = Returned q
  ∧ print_error W (seq_line W outdir t) = None.
Proof.
  unfold seq_result. destruct (item_result W outdir t) as [q'|e].
  - destruct (print_error W _); split; [done|intros [_ ?]; done| |];
      [by intros [= ->]|by intros [[= ->] _]].
  - split; [done|]. by intros [? _].
Qed.

Lemma seq_result_accepted (W : World) (outdir t : pystr) :
  stdout_accepts W → seq_result W outdir t = item_result W outdir t.
Proof.
  intros Hacc. unfold seq_result. rewrite Hacc.
  by destruct (item_result W outdir t).
Qed.

Lemma print_accepted (W : World) (line : pystr) (st : State) :
  print_error W line = None →
  print W line st = (Returned (), mkState (files st) (stdout st ++ [line])).
Proof. unfold print. by intros ->. Qed.

Lemma print_refused (W : World) (line : pystr) (st : State) (e : exn) :
  print_error W line = Some e → print W line st = (Raised e, st).
Proof. unfold print. by intros ->. Qed.

Lemma run_sequential_loop_returns (W : World) (outdir : pystr)
    (titles : list pystr) (ok skipped : Z) (st : State) :
  Forall (λ t, ∃ q, seq_result W outdir t = Returned q) titles →
  run_sequential_loop W outdir titles ok skipped st
  = (Returned (ok + count_ok (item_ok W outdir) titles,
               skipped + count_skipped (item_ok W outdir) titles),
     mkState (run_writes W outdir titles (files st))
             (stdout st ++ (seq_line W outdir <$> titles))).
Proof.
  intros H. revert ok skipped st.
  induction H as [|t titles [q Hq] _ IH]; intros ok skipped [fs out].
  - simpl. by rewrite !Z.add_0_r, app_nil_r.
  - apply seq_result_returned in Hq as [Hq Hp].
    cbn [run_sequential_loop]. unfold mbind, M_bind, lift.
    rewrite fetch_page_references_returns, save_references_run.
    fold (item_result W outdir t). fold (task_write W outdir t).
    cbn [count_ok count_skipped fmap list_fmap run_writes foldl].
    unfold item_ok at 1 3. unfold seq_line at 1. unfold seq_line in Hp.
    rewrite Hq in *.
    destruct q as [p|]; rewrite print_accepted by done;
      cbn [files stdout apply_write];
      rewrite IH; cbn [files stdout]; rewrite <- app_assoc;
      do 2 f_equal; f_equal; lia.
Qed.

Lemma run_sequential_loop_raises (W : World) (outdir : pystr)
    (done_ : list pystr) (t : pystr) (rest : list pystr) (e : exn)
    (ok skipped : Z) (st : State) :
  Forall (λ t, ∃ q, seq_result W outdir t = Returned q) done_ →
  seq_result W outdir t = Raised e →
  run_sequential_loop W outdir (done_ ++ t :: rest) ok skipped st
  = (Raised e,
     mkState (run_writes W outdir (done_ ++ [t]) (files st))
             (stdout st ++ (seq_line W outdir <$> done_))).
Proof.
  intros H He. revert ok skipped st.
  induction H as [|t' titles [q Hq] _ IH]; intros ok skipped [fs out].
  - cbn [app run_sequential_loop]. unfold mbind, M_bind, lift.
    rewrite fetch_page_references_returns, save_references_run.
    fold (item_result W outdir t). fold (task_write W outdir t).
    unfold seq_result, seq_line in He.
    destruct (item_result W outdir t) as [q|e'].
    + destruct q as [p|];
        destruct (print_error W _) as [e'|] eqn:Hp; try done;
        injection He as ->; rewrite (print_refused _ _ _ _ Hp);
        simpl; by rewrite app_nil_r.
    + injection He as ->. simpl. by rewrite app_nil_r.
  - apply seq_result_returned in Hq as [Hq Hp].
    cbn [app run_sequential_loop]. unfold mbind, M_bind, lift.
    rewrite fetch_page_references_returns, save_references_run.
    fold (item_result W outdir t'). fold (task_write W outdir t').
    unfold seq_line in Hp. rewrite Hq in *.
    destruct q as [p|]; rewrite print_accepted by done;
      cbn [files stdout apply_write];
      rewrite IH; cbn [files stdout fmap list_fmap run_writes foldl app];
      unfold seq_line at 2; rewrite Hq; rewrite <- app_assoc; done.
Qed.

Lemma items_return_or_raise (W : World) (outdir : pystr) (titles : list pystr) :
  Forall (λ t, ∃ q, seq_result W outdir t = Returned q) titles
  ∨ ∃ done_ t rest e,
      titles = done_ ++ t :: rest
      ∧ Forall (λ t, ∃ q, seq_result W outdir t = Returned q) done_
      ∧ seq_result W outdir t = Raised e.
Proof.
  induction titles as [|t titles IH]; [by left|].
  destruct (seq_result W outdir t) as [q|e] eqn:Ht.
  - destruct IH as [IH|(d & t' & rest & e & -> & Hd & He)].
    + left. constructor; eauto.
    + right. exists (t :: d), t', rest, e. repeat split; eauto.
  - right. exists [], t, titles, e. repeat split; eauto.
Qed.

(** ** The worker pools *)

Lemma Executor_ok (max_workers : option Z) (st : State) :
  pool_size_ok max_workers → Executor max_workers st = (Returned (), st).
Proof.
  destruct max_workers as [n|]; simpl; [|done].
  intros Hn. destruct (Z.leb_spec n 0); [lia|done].
Qed.

Lemma run_tasks_run (W : World) (outdir : pystr) (titles : list pystr)
    (started : list nat) (futs : gmap nat future) (st : State) :
  run_tasks W outdir titles started futs st
  = (Returned (task_futures W outdir titles started futs),
     mkState (run_writes W outdir (omap (titles !!.) started) (files st))
             (stdout st)).
Proof.
  revert futs st. induction started as [|i started IH]; intros futs [fs out].
  - done.
  - cbn [run_tasks task_futures foldl omap list_omap].
    destruct (titles !! i) as [t|] eqn:Ht.
    + rewrite process_worker_run, IH. done.
    + rewrite IH. done.
Qed.

Lemma task_futures_lookup (W : World) (outdir : pystr) (titles : list pystr)
    (started : list nat) (futs : gmap nat future) (i : nat) (t : pystr) :
  titles !! i = Some t →
  i ∈ started ∨ futs !! i = Some (worker_result W outdir t) →
  task_futures W outdir titles started futs !! i
  = Some (worker_result W outdir t).
Proof.
  intros Ht. revert futs.
  induction started as [|j started IH]; intros futs [Hi|Hi].
  - by apply elem_of_nil in Hi.
  - done.
  - cbn [task_futures foldl]. apply IH.
    apply elem_of_cons in Hi as [<-|Hi]; [|by left].
    right. rewrite Ht. apply lookup_insert_eq.
  - cbn [task_futures foldl]. apply IH. right.
    destruct (titles !! j) as [t'|] eqn:Hj; [|done].
    destruct (decide (i = j)) as [->|Hne].
    + rewrite Hj in Ht. injection Ht as ->. apply lookup_insert_eq.
    + by rewrite lookup_insert_ne.
Qed.

Lemma delivered_submitted (W : World) (outdir : pystr) (titles : list pystr)
    (futs : gmap nat future) (completed : list nat) :
  (∀ i t, i ∈ completed → titles !! i = Some t →
          futs !! i = Some (worker_result W outdir t)) →
  delivered titles futs completed = submitted W outdir titles completed.
Proof.
  unfold delivered, submitted.
  induction completed as [|i completed IH]; intros H; [done|].
  cbn [omap list_omap]. rewrite IH by (intros; apply H; set_solver).
  destruct (titles !! i) as [t|] eqn:Ht; [|done].
  rewrite (H i t) by set_solver. done.
Qed.

Lemma lookup_all_indices {A} (pre l : list A) :
  omap (λ i, (pre ++ l) !! i) (seq (length pre) (length l)) = l.
Proof.
  revert pre. induction l as [|x l IH]; intros pre; [done|].
  cbn [length seq omap list_omap].
  rewrite list_lookup_middle by done.
  f_equal. specialize (IH (pre ++ [x])).
  rewrite <- app_assoc, length_app in IH. cbn in IH.
  by rewrite Nat.add_1_r in IH.
Qed.

Lemma lookup_schedule {A} (l : list A) (order : list nat) :
  schedule (length l) order → omap (l !!.) order ≡ₚ l.
Proof.
  unfold schedule. intros ->.
  change (omap (l !!.) (seq 0 (length l)))
    with (omap (λ i, ([] ++ l) !! i) (seq (length (@nil A)) (length l))).
  by rewrite lookup_all_indices.
Qed.

Lemma submitted_lookup (W : World) (outdir : pystr) (titles : list pystr)
    (order : list nat) :
  submitted W outdir titles order
  = (λ t, (t, worker_result W outdir t)) <$> omap (titles !!.) order.
Proof.
  unfold submitted. induction order as [|i order IH]; [done|].
  cbn [omap list_omap]. rewrite IH. by destruct (titles !! i).
Qed.

Lemma submitted_perm (W : World) (outdir : pystr) (titles : list pystr)
    (order : list nat) :
  schedule (length titles) order →
  submitted W outdir titles order
  ≡ₚ (λ t, (t, worker_result W outdir t)) <$> titles.
Proof.
  intros H. rewrite submitted_lookup. by rewrite lookup_schedule.
Qed.

Lemma count_pool_items (W : World) (outdir : pystr) (ts : list pystr) :
  count_ok (λ tf, pool_ok tf.2) ((λ t, (t, worker_result W outdir t)) <$> ts)
  = count_ok (item_ok W outdir) ts
  ∧ count_skipped (λ tf, pool_ok tf.2)
      ((λ t, (t, worker_result W outdir t)) <$> ts)
    = count_skipped (item_ok W outdir) ts.
Proof.
  induction ts as [|t ts [IH1 IH2]]; [done|].
  cbn [fmap list_fmap count_ok count_skipped snd].
  fold (fmap (M:=list) (λ t, (t, worker_result W outdir t)) ts).
  rewrite IH1, IH2.
  assert (Hw : pool_ok (worker_result W outdir t) = item_ok W outdir t)
    by apply pool_ok_worker.
  by rewrite Hw.
Qed.

Lemma delivered_cons (titles : list pystr) (futs : gmap nat future)
    (i : nat) (completed : list nat) :
  delivered titles futs (i :: completed)
  = match titles !! i, futs !! i with
    | Some t, Some f => (t, f) :: delivered titles futs completed
    | _, _ => delivered titles futs completed
    end.
Proof.
  unfold delivered. cbn [omap list_omap].
  destruct (titles !! i); [|done]. by destruct (futs !! i).
Qed.

Lemma run_threads_loop_run (W : World) (titles : list pystr)
    (futs : gmap nat future) (completed : list nat) (c : Z * Z) (st : State) :
  run_threads_loop W titles futs completed c st
  = let '(o, inc, ls) :=
      pool_trace W (str "thread error: ") (delivered titles futs completed) in
    (o, (c.1 + inc.1, c.2 + inc.2), mkState (files st) (stdout st ++ ls)).
Proof.
  revert c st.
  induction completed as [|i completed IH]; intros [ok sk] [fs out].
  - cbn. by rewrite !Z.add_0_r, app_nil_r.
  - rewrite delivered_cons. cbn [run_threads_loop].
    destruct (titles !! i) as [t|]; [|apply IH].
    destruct (futs !! i) as [fut|]; [|apply IH].
    cbn [pool_trace]. unfold pool_step, pool_handler. cbn [fst snd].
    unfold mbind at 1, Loop_bind at 1, try_except.
    unfold mbind at 1, Loop_bind at 1, fut_result, stmt, lift.
    unfold incr_ok, incr_skipped.
    destruct fut as [[name [err|]]|e]; pool_turn IH.
Qed.

Lemma run_processes_loop_run (W : World) (titles : list pystr)
    (futs : gmap nat future) (completed : list nat) (c : Z * Z) (st : State) :
  run_processes_loop W titles futs completed c st
  = let '(o, inc, ls) :=
      pool_trace W (str "process error: ") (delivered titles futs completed) in
    (o, (c.1 + inc.1, c.2 + inc.2), mkState (files st) (stdout st ++ ls)).
Proof.
  revert c st.
  induction completed as [|i completed IH]; intros [ok sk] [fs out].
  - cbn. by rewrite !Z.add_0_r, app_nil_r.
  - rewrite delivered_cons. cbn [run_processes_loop].
    destruct (titles !! i) as [t|]; [|apply IH].
    destruct (futs !! i) as [fut|]; [|apply IH].
    cbn [pool_trace]. unfold pool_step, pool_handler. cbn [fst snd].
    unfold mbind at 1, Loop_bind at 1, try_except.
    unfold mbind at 1, Loop_bind at 1, fut_result, stmt, lift.
    unfold incr_ok, incr_skipped.
    destruct fut as [[name [err|]]|e]; pool_turn IH.
Qed.

(** When the output accepts the line of every delivered future, the
    loop counts each future once. *)
Lemma pool_trace_accepted (W : World) (label : pystr)
    (d : list (pystr * future)) :
  Forall (λ tf, print_error W (pool_line label tf) = None) d →
  pool_trace W label d
  = (Returned (),
     (count_ok (λ tf, pool_ok tf.2) d, count_skipped (λ tf, pool_ok tf.2) d),
     pool_line label <$> d).
Proof.
  induction 1 as [|[t fut] d Hl _ IH]; [done|].
  cbn [pool_trace]. rewrite IH. clear IH.
  unfold pool_step, pool_handler, pool_line in *.
  cbn [fst snd count_ok count_skipped pool_ok fmap list_fmap] in *.
  destruct fut as [[name [err|]]|e]; rewrite Hl; cbn [fst snd app];
    do 2 f_equal.
Qed.

Lemma Executor_cases (max_workers : option Z) (st : State) :
  (pool_size_ok max_workers ∧ Executor max_workers st = (Returned (), st))
  ∨ ∃ e, Executor max_workers st = (Raised e, st).
Proof.
  destruct max_workers as [n|]; simpl; [|by left].
  destruct (Z.leb_spec n 0); [right; by eexists|left; split; [lia|done]].
Qed.

(** A pool whose size is accepted, on any two lists of future numbers
    and any output. *)
Lemma run_threads_trace (W : World) (titles : list pystr) (outdir : pystr)
    (max_workers : option Z) (started completed : list nat) (st : State) :
  pool_size_ok max_workers →
  run_threads W titles outdir max_workers started completed st
  = let '(o, inc, ls) :=
      pool_trace W (str "thread error: ")
        (delivered titles (task_futures W outdir titles started ∅) completed)
    in
    (match o with Returned _ => Returned inc | Raised e => Raised e end,
     mkState (run_writes W outdir (omap (titles !!.) started) (files st))
             (stdout st ++ ls)).
Proof.
  intros Hmw. unfold run_threads, mbind, M_bind, with_counters.
  rewrite Executor_ok, run_tasks_run, run_threads_loop_run by done.
  destruct (pool_trace _ _ _) as [[[[]|e] [a b]] ls]; done.
Qed.

Lemma run_processes_trace (W : World) (titles : list pystr) (outdir : pystr)
    (max_workers : option Z) (started completed : list nat) (st : State) :
  pool_size_ok max_workers →
  run_processes W titles outdir max_workers started completed st
  = let '(o, inc, ls) :=
      pool_trace W (str "process error: ")
        (delivered titles (task_futures W outdir titles started ∅) completed)
    in
    (match o with Returned _ => Returned inc | Raised e => Raised e end,
     mkState (run_writes W outdir (omap (titles !!.) started) (files st))
             (stdout st ++ ls)).
Proof.
  intros Hmw. unfold run_processes, mbind, M_bind, with_counters.
  rewrite Executor_ok, run_tasks_run, run_processes_loop_run by done.
  destruct (pool_trace _ _ _) as [[[[]|e] [a b]] ls]; done.
Qed.

(** The tasks of a pool run to their end whatever the loop prints. *)
Lemma run_pools_files (W : World) (titles : list pystr) (outdir : pystr)
    (max_workers : option Z) (started completed : list nat) (st : State) :
  pool_size_ok max_workers →
  files (run_threads W titles outdir max_workers started completed st).2
  = run_writes W outdir (omap (titles !!.) started) (files st)
  ∧ files (run_processes W titles outdir max_workers started completed st).2
    = run_writes W outdir (omap (titles !!.) started) (files st).
Proof.
  intros Hmw. rewrite run_threads_trace, run_processes_trace by done.
  split; by destruct (pool_trace _ _ _) as [[o inc] ls].
Qed.

(** A pool whose size is accepted, when the output accepts its lines. *)
Lemma run_threads_state (W : World) (titles : list pystr) (outdir : pystr)
    (max_workers : option Z) (started completed : list nat) (st : State) :
  pool_size_ok max_workers →
  let d := delivered titles (task_futures W outdir titles started ∅) completed in
  Forall (λ tf, print_error W (pool_line (str "thread error: ") tf) = None) d →
  run_threads W titles outdir max_workers started completed st
  = (Returned (count_ok (λ tf, pool_ok tf.2) d,
               count_skipped (λ tf, pool_ok tf.2) d),
     mkState (run_writes W outdir (omap (titles !!.) started) (files st))
             (stdout st ++ (pool_line (str "thread error: ") <$> d))).
Proof.
  intros Hmw d Hacc. rewrite run_threads_trace by done.
  fold d. by rewrite pool_trace_accepted.
Qed.

Lemma run_processes_state (W : World) (titles : list pystr) (outdir : pystr)
    (max_workers : option Z) (started completed : list nat) (st : State) :
  pool_size_ok max_workers →
  let d := delivered titles (task_futures W outdir titles started ∅) completed in
  Forall (λ tf, print_error W (pool_line (str "process error: ") tf) = None) d →
  run_processes W titles outdir max_workers started completed st
  = (Returned (count_ok (λ tf, pool_ok tf.2) d,
               count_skipped (λ tf, pool_ok tf.2) d),
     mkState (run_writes W outdir (omap (titles !!.) started) (files st))
             (stdout st ++ (pool_line (str "process error: ") <$> d))).
Proof.
  intros Hmw d Hacc. rewrite run_processes_trace by done.
  fold d. by rewrite pool_trace_accepted.
Qed.

Lemma accepts_all {A} (W : World) (f : A → pystr) (l : list A) :
  stdout_accepts W → Forall (λ x, print_error W (f x) = None) l.
Proof. intros Hacc. apply Forall_forall. intros x _. apply Hacc. Qed.

Lemma schedule_elem_of (n : nat) (order : list nat) (i : nat) :
  schedule n order → i ∈ order ↔ (i < n)%nat.
Proof.
  unfold schedule. intros ->. rewrite elem_of_seq. lia.
Qed.

Lemma delivered_schedule (W : World) (outdir : pystr) (titles : list pystr)
    (started completed : list nat) :
  schedule (length titles) started →
  delivered titles (task_futures W outdir titles started ∅) completed
  = submitted W outdir titles completed.
Proof.
  intros Hs. apply delivered_submitted. intros i t _ Ht.
  apply task_futures_lookup; [done|]. left.
  apply (schedule_elem_of _ _ _ Hs). by eapply lookup_lt_Some.
Qed.

Lemma count_submitted (W : World) (outdir : pystr) (titles : list pystr)
    (completed : list nat) :
  schedule (length titles) completed →
  count_ok (λ tf, pool_ok tf.2) (submitted W outdir titles completed)
  = count_ok (item_ok W outdir) titles
  ∧ count_skipped (λ tf, pool_ok tf.2) (submitted W outdir titles completed)
    = count_skipped (item_ok W outdir) titles.
Proof.
  intros Hc.
  destruct (count_ok_perm (λ tf : pystr * future, pool_ok tf.2) _ _
              (submitted_perm W outdir titles completed Hc)) as [-> ->].
  apply count_pool_items.
Qed.

(** A pool whose size is accepted, under a schedule of the batch. *)
Lemma run_threads_run (W : World) (titles : list pystr) (outdir : pystr)
    (max_workers : option Z) (started completed : list nat) (st : State) :
  pool_size_ok max_workers →
  schedule (length titles) started → schedule (length titles) completed →
  Forall (λ tf, print_error W (pool_line (str "thread error: ") tf) = None)
    (submitted W outdir titles completed) →
  run_threads W titles outdir max_workers started completed st
  = (Returned (count_ok (item_ok W outdir) titles,
               count_skipped (item_ok W outdir) titles),
     mkState (run_writes W outdir (omap (titles !!.) started) (files st))
             (stdout st
              ++ (pool_line (str "thread error: ")
                    <$> submitted W outdir titles completed))).
Proof.
  intros Hmw Hs Hc Hacc.
  rewrite run_threads_state by (by rewrite ?delivered_schedule).
  rewrite delivered_schedule by done.
  by destruct (count_submitted W outdir titles completed Hc) as [-> ->].
Qed.

Lemma run_processes_run (W : World) (titles : list pystr) (outdir : pystr)
    (max_workers : option Z) (started completed : list nat) (st : State) :
  pool_size_ok max_workers →
  schedule (length titles) started → schedule (length titles) completed →
  Forall (λ tf, print_error W (pool_line (str "process error: ") tf) = None)
    (submitted W outdir titles completed) →
  run_processes W titles outdir max_workers started completed st
  = (Returned (count_ok (item_ok W outdir) titles,
               count_skipped (item_ok W outdir) titles),
     mkState (run_writes W outdir (omap (titles !!.) started) (files st))
             (stdout st
              ++ (pool_line (str "process error: ")
                    <$> submitted W outdir titles completed))).
Proof.
  intros Hmw Hs Hc Hacc.
  rewrite run_processes_state by (by rewrite ?delivered_schedule).
  rewrite delivered_schedule by done.
  by destruct (count_submitted W outdir titles completed Hc) as [-> ->].
Qed.

Lemma run_threads_raises (W : World) (titles : list pystr) (outdir : pystr)
    (max_workers : option Z) (started completed : list nat) (st : State) :
  ¬ pool_size_ok max_workers →
  ∃ e, run_threads W titles outdir max_workers started completed st
       = (Raised e, st).
Proof.
  intros Hmw. unfold run_threads, mbind, M_bind.
  destruct (Executor_cases max_workers st) as [[? _]|[e ->]]; [done|eauto].
Qed.

Lemma run_processes_raises (W : World) (titles : list pystr) (outdir : pystr)
    (max_workers : option Z) (started completed : list nat) (st : State) :
  ¬ pool_size_ok max_workers →
  ∃ e, run_processes W titles outdir max_workers started completed st
       = (Raised e, st).
Proof.
  intros Hmw. unfold run_processes, mbind, M_bind.
  destruct (Executor_cases max_workers st) as [[? _]|[e ->]]; [done|eauto].
Qed.

Lemma pool_size_ok_dec (max_workers : option Z) :
  pool_size_ok max_workers ∨ ¬ pool_size_ok max_workers.
Proof. destruct max_workers as [n|]; simpl; [lia|by left]. Qed.

Lemma persist_returns_item (W : World) (outdir t : pystr) :
  persist_returns W outdir t ↔ ∃ q, item_result W outdir t = Returned q.
Proof.
  unfold persist_returns, item_result. split.
  - intros H.
    destruct (H _ empty_state (fetch_page_references_returns W t))
      as (q & st' & Hq).
    rewrite save_references_run in Hq. injection Hq as Hq _. eauto.
  - intros [q Hq] r st Hr. rewrite fetch_page_references_returns in Hr.
    injection Hr as <-. rewrite save_references_run, Hq. eauto.
Qed.

Lemma persist_returns_items (W : World) (outdir : pystr) (titles : list pystr) :
  Forall (persist_returns W outdir) titles
  ↔ Forall (λ t, ∃ q, item_result W outdir t = Returned q) titles.
Proof. apply Forall_proper; [|done]. intros t. apply persist_returns_item. Qed.

Lemma seq_line_returned (W : World) (outdir t : pystr) (q : option path) :
  item_result W outdir t = Returned q →
  seq_line W outdir t
  = match error (fetched W t) with
    | None => line_wrote (safe_filename (title (fetched W t)) ++ str ".txt")
    | Some err => line_skipped t err
    end.
Proof.
  intros Hq. unfold seq_line.
  destruct (item_result_cases W outdir t)
    as [(err & Herr & Hi)|[(Herr & Hi)|(Herr & e & Hi)]];
    rewrite Hi, Herr; [done|done|congruence].
Qed.

Lemma pool_line_returned (W : World) (outdir t : pystr) (q : option path)
    (label : pystr) :
  item_result W outdir t = Returned q →
  pool_line label (t, worker_result W outdir t) = seq_line W outdir t.
Proof.
  intros Hq. rewrite (seq_line_returned W outdir t q Hq).
  unfold pool_line, worker_result. cbn [fst snd].
  destruct (item_result_cases W outdir t)
    as [(err & Herr & Hi)|[(Herr & Hi)|(Herr & e & Hi)]];
    rewrite Hi, Herr; [done|done|congruence].
Qed.

Lemma elem_of_lookups {A} (l : list A) (order : list nat) (x : A) :
  x ∈ omap (l !!.) order → x ∈ l.
Proof.
  rewrite list_elem_of_omap. intros (i & _ & Hi).
  by eapply list_elem_of_lookup_2.
Qed.

(** The lines of a sequential run that returns were accepted, and they are
    the lines a pool prints. *)
Lemma seq_returns_pool_accepted (W : World) (outdir : pystr)
    (titles : list pystr) (label : pystr) (order : list nat) :
  Forall (λ t, ∃ q, seq_result W outdir t = Returned q) titles →
  Forall (λ tf, print_error W (pool_line label tf) = None)
    (submitted W outdir titles order).
Proof.
  intros H. rewrite submitted_lookup. apply Forall_fmap, Forall_forall.
  intros t Ht%elem_of_lookups.
  rewrite Forall_forall in H. destruct (H t Ht) as [q Hq].
  apply seq_result_returned in Hq as [Hq Hp].
  cbn. by rewrite (pool_line_returned W outdir t q label Hq).
Qed.

(** ** The Batch Aggregate *)

Lemma seq_returns_persist (W : World) (outdir : pystr) (titles : list pystr) :
  Forall (λ t, ∃ q, seq_result W outdir t = Returned q) titles →
  Forall (persist_returns W outdir) titles.
Proof.
  intros H. apply persist_returns_items. eapply Forall_impl; [exact H|].
  intros t [q Hq]. apply seq_result_returned in Hq as [Hq _]. eauto.
Qed.

Lemma persist_returns_seq (W : World) (outdir : pystr) (titles : list pystr) :
  stdout_accepts W →
  Forall (persist_returns W outdir) titles →
  Forall (λ t, ∃ q, seq_result W outdir t = Returned q) titles.
Proof.
  intros Hacc H. apply persist_returns_items in H.
  eapply Forall_impl; [exact H|].
  intros t [q Hq]. exists q. by rewrite seq_result_accepted.
Qed.

(** The sequential strategy either handles every identifier and returns,
    or stops at the first identifier whose persist step or status line
    raises. *)
Lemma run_sequential_cases (W : World) (titles : list pystr) (outdir : pystr)
    (st : State) :
  (Forall (λ t, ∃ q, seq_result W outdir t = Returned q) titles
   ∧ run_sequential W titles outdir st
     = (Returned (count_ok (item_ok W outdir) titles,
                  count_skipped (item_ok W outdir) titles),
        mkState (run_writes W outdir titles (files st))
                (stdout st ++ (seq_line W outdir <$> titles))))
  ∨ ∃ done_ t rest e,
      titles = done_ ++ t :: rest
      ∧ Forall (λ t, ∃ q, seq_result W outdir t = Returned q) done_
      ∧ seq_result W outdir t = Raised e
      ∧ run_sequential W titles outdir st
        = (Raised e,
           mkState (run_writes W outdir (done_ ++ [t]) (files st))
                   (stdout st ++ (seq_line W outdir <$> done_))).
Proof.
  unfold run_sequential.
  destruct (items_return_or_raise W outdir titles)
    as [H|(d & t & rest & e & -> & Hd & He)].
  - left. split; [done|]. by rewrite run_sequential_loop_returns.
  - right. exists d, t, rest, e.
    repeat split; [done|done|]. by apply run_sequential_loop_raises.
Qed.

Lemma schedule_201 : schedule 3 [2; 0; 1]%nat.
Proof. unfold schedule. simpl. solve_Permutation. Defined.

Lemma schedule_120 : schedule 3 [1; 2; 0]%nat.
Proof. unfold schedule. simpl. solve_Permutation. Defined.

Lemma schedule_3_cases (order : list nat) :
  schedule 3 order →
  order ∈ [[0; 1; 2]; [0; 2; 1]; [1; 0; 2]; [1; 2; 0]; [2; 0; 1]; [2; 1; 0]]%nat.
Proof.
  unfold schedule.
  intros H. pose proof (Permutation_length H) as Hl.
  destruct order as [|a [|b [|c [|]]]]; try done.
  assert (Ha : (a < 3)%nat).
  { apply (elem_of_seq 0 3 a). rewrite <- H. by left. }
  assert (Hb : (b < 3)%nat).
  { apply (elem_of_seq 0 3 b). rewrite <- H. right. by left. }
  assert (Hc : (c < 3)%nat).
  { apply (elem_of_seq 0 3 c). rewrite <- H. right. right. by left. }
  pose proof (NoDup_seq 0 3) as Hn. rewrite <- H in Hn.
  apply NoDup_cons in Hn as [Hab Hn]. apply NoDup_cons in Hn as [Hbc _].
  rewrite !elem_of_cons in Hab. rewrite elem_of_cons in Hbc.
  destruct a as [|[|[|]]]; try lia; destruct b as [|[|[|]]]; try lia;
    destruct c as [|[|[|]]]; try lia; try tauto;
    repeat (first [by left | right]).
Qed.

Lemma stub_persist_returns (outdir : pystr) :
  Forall (persist_returns stub_world outdir) ABC.
Proof.
  apply persist_returns_items.
  repeat constructor; eexists; vm_compute; reflexivity.
Defined.

Lemma stub_stdout_accepts : stdout_accepts stub_world.
Proof. intros line. reflexivity. Defined.

(** C1. The claim fails for the two pools. Their loops add one to a
    counter and then print the status line, both inside the [try]; when
    the standard output refuses the line, [print] raises, the [except]
    branch adds one to [skipped] again and the identifier is counted
    twice. On the stub batch A, B, C (two pages, one time-out) with a
    standard output in GBK, which has no check mark, a pool returns
    [(2, 3)] for three identifiers under every schedule: [ok + skipped]
    is 5. The sequential strategy, which prints outside any handler,
    raises at the first line after writing the file of A and returns no
    aggregate. *)
Theorem C1_refused_line_is_counted_twice (started completed : list nat) :
  schedule 3 started → schedule 3 completed →
  let threads :=
    run_threads gbk_world ABC (str "wiki_dl") None started completed
      empty_state in
  let processes :=
    run_processes gbk_world ABC (str "wiki_dl") None started completed
      empty_state in
  let sequential := run_sequential gbk_world ABC (str "wiki_dl") empty_state in
  length ABC = 3%nat
  ∧ threads.1 = Returned (2, 3)
  ∧ processes.1 = Returned (2, 3)
  ∧ ¬ aggregate_of (length ABC) threads
  ∧ ¬ aggregate_of (length ABC) processes
  ∧ (∃ e, sequential.1 = Raised e ∧ exn_cls e = UnicodeEncodeError)
  ∧ dom (files sequential.2) = {[ (str "wiki_dl", str "A.txt") ]}
  ∧ stdout sequential.2 = [].
Proof.
  intros Hs Hc threads processes sequential.
  assert (threads.1 = Returned (2, 3) ∧ processes.1 = Returned (2, 3))
    as [Ht Hp].
  { subst threads processes.
    apply schedule_3_cases in Hs, Hc.
    rewrite !elem_of_cons, elem_of_nil in Hs, Hc.
    destruct Hs as [->|[->|[->|[->|[->|[->|[]]]]]]];
      destruct Hc as [->|[->|[->|[->|[->|[->|[]]]]]]];
      split; vm_compute; reflexivity. }
  split; [reflexivity|]. split; [exact Ht|]. split; [exact Hp|].
  split; [|split].
  - intros (ok & sk & Hr & Hsum & _). rewrite Ht in Hr.
    injection Hr as <- <-. simpl in Hsum. lia.
  - intros (ok & sk & Hr & Hsum & _). rewrite Hp in Hr.
    injection Hr as <- <-. simpl in Hsum. lia.
  - clear. subst sequential. split; [|split].
    + eexists. split; vm_compute; reflexivity.
    + apply (bool_decide_unpack _). vm_compute. reflexivity.
    + vm_compute. reflexivity.
Qed.

Lemma C1_witness :
  (run_threads gbk_world ABC (str "wiki_dl") None
     [2; 0; 1]%nat [1; 2; 0]%nat empty_state).1 = Returned (2, 3)
  ∧ (run_processes gbk_world ABC (str "wiki_dl") None
       [2; 0; 1]%nat [1; 2; 0]%nat empty_state).1 = Returned (2, 3).
Proof.
  destruct (C1_refused_line_is_counted_twice [2; 0; 1]%nat [1; 2; 0]%nat
              schedule_201 schedule_120) as (_ & Ht & Hp & _).
  exact (conj Ht Hp).
Defined.

(** ** Which files a run touches *)

Lemma task_write_success (W : World) (outdir t : pystr) (p : path)
    (bytes : string) :
  task_write W outdir t = Some (p, bytes) →
  error (fetched W t) = None ∧ p = target outdir (fetched W t).
Proof.
  unfold task_write, persist_write.
  destruct (error (fetched W t)); [done|].
  destruct (open_error W _); [done|]. by intros [= <- _].
Qed.

Lemma run_writes_cons (W : World) (outdir t : pystr) (ts : list pystr)
    (fs : gmap path string) :
  run_writes W outdir (t :: ts) fs
  = run_writes W outdir ts (write_files (task_write W outdir t) fs).
Proof. done. Qed.

Lemma run_writes_changed (W : World) (outdir : pystr) (ts : list pystr)
    (fs : gmap path string) (p : path) :
  run_writes W outdir ts fs !! p ≠ fs !! p →
  ∃ t bytes, t ∈ ts ∧ task_write W outdir t = Some (p, bytes).
Proof.
  revert fs. induction ts as [|t ts IH]; intros fs; [done|].
  rewrite run_writes_cons. intros Hne.
  destruct (decide (run_writes W outdir ts
                      (write_files (task_write W outdir t) fs) !! p
                    = write_files (task_write W outdir t) fs !! p))
    as [Heq|Hne'].
  - rewrite Heq in Hne.
    destruct (task_write W outdir t) as [[q bytes]|] eqn:Hw; [|done].
    simpl in Hne. destruct (decide (q = p)) as [->|Hqp].
    + exists t, bytes. split; [left|done].
    + by rewrite lookup_insert_ne in Hne.
  - destruct (IH _ Hne') as (t' & bytes & Hin & Hw).
    exists t', bytes. split; [by right|done].
Qed.

Lemma dom_run_writes (W : World) (outdir : pystr) (ts : list pystr)
    (fs : gmap path string) :
  dom (run_writes W outdir ts fs)
  = dom fs ∪ list_to_set (omap (λ t, fst <$> task_write W outdir t) ts).
Proof.
  revert fs. induction ts as [|t ts IH]; intros fs.
  - cbn. by rewrite union_empty_r_L.
  - rewrite run_writes_cons, IH. cbn [omap list_omap].
    destruct (task_write W outdir t) as [[q bytes]|];
      cbn [fmap option_fmap option_map write_files fst]; [|done].
    rewrite dom_insert_L, list_to_set_cons.
    by rewrite (comm_L (∪) {[q]} (dom fs)), (assoc_L (∪)).
Qed.

Lemma dom_run_writes_perm (W : World) (outdir : pystr) (ts ts' : list pystr)
    (fs : gmap path string) :
  ts ≡ₚ ts' → dom (run_writes W outdir ts fs) = dom (run_writes W outdir ts' fs).
Proof. intros H. rewrite !dom_run_writes. by rewrite H. Qed.

(** The files a run leaves differ from the initial ones only where a task
    of the batch wrote. *)
Lemma strategies_files (W : World) (titles : list pystr) (outdir : pystr)
    (max_workers : option Z) (started completed : list nat) (st : State)
    (run : outcome (Z * Z) * State) :
  run ∈ [run_sequential W titles outdir st;
         run_threads W titles outdir max_workers started completed st;
         run_processes W titles outdir max_workers started completed st] →
  ∃ ts, (∀ t, t ∈ ts → t ∈ titles)
        ∧ files run.2 = run_writes W outdir ts (files st).
Proof.
  intros Hrun.
  apply elem_of_cons in Hrun as [->|Hrun];
    [|apply elem_of_cons in Hrun as [->|Hrun];
      [|apply list_elem_of_singleton in Hrun as ->]].
  - destruct (run_sequential_cases W titles outdir st)
      as [[_ ->]|(d & t & rest & e & -> & _ & _ & ->)].
    + by exists titles.
    + exists (d ++ [t]). split; [|done].
      intros x. rewrite !elem_of_app, !elem_of_cons, elem_of_nil. tauto.
  - destruct (pool_size_ok_dec max_workers) as [Hmw|Hmw].
    + exists (omap (titles !!.) started).
      split; [intros t; apply elem_of_lookups|].
      by apply run_pools_files.
    + destruct (run_threads_raises W titles outdir max_workers
                  started completed st Hmw) as [e ->].
      exists []. split; [intros t Ht; by apply elem_of_nil in Ht|done].
  - destruct (pool_size_ok_dec max_workers) as [Hmw|Hmw].
    + exists (omap (titles !!.) started).
      split; [intros t; apply elem_of_lookups|].
      by apply run_pools_files.
    + destruct (run_processes_raises W titles outdir max_workers
                  started completed st Hmw) as [e ->].
      exists []. split; [intros t Ht; by apply elem_of_nil in Ht|done].
Qed.

(** C5. The result sink returns [None] on a Failure outcome and leaves the
    files (and the output) as they are; and under each strategy, whatever
    the schedule, a file that a run created or changed is the file of a
    Success outcome of the batch: a Failure outcome never produces one. *)
Theorem C5_failure_writes_no_file (W : World) (outdir : pystr) :
  (∀ r st, error r ≠ None →
     save_references W r outdir st = (Returned None, st))
  ∧ (∀ titles max_workers started completed st run p,
       run ∈ [run_sequential W titles outdir st;
              run_threads W titles outdir max_workers started completed st;
              run_processes W titles outdir max_workers started completed st] →
       files run.2 !! p ≠ files st !! p →
       ∃ t r, t ∈ titles
         ∧ fetch_page_references W t = Returned r
         ∧ error r = None
         ∧ p = (outdir, safe_filename (title r) ++ str ".txt")).
Proof.
  split; [intros; by apply save_references_failure|].
  intros titles mw started completed st run p Hrun Hp.
  destruct (strategies_files _ _ _ _ _ _ _ _ Hrun) as (ts & Hts & Hfs).
  rewrite Hfs in Hp.
  destruct (run_writes_changed _ _ _ _ _ Hp) as (t & bytes & Hin & Hw).
  apply task_write_success in Hw as [Herr ->].
  exists t, (fetched W t).
  repeat split; auto using fetch_page_references_returns.
Qed.

(** ** The strategies compared *)

(** Against a content source that answers each identifier in one way,
    whenever the sequential strategy returns its aggregate, the thread
    pool and the process pool return the same aggregate under every
    schedule (the order in which tasks take effect and the order in which
    their completions are delivered), and the three runs write the same
    set of storage keys: from any initial storage, the files present
    afterwards are the initial ones and that one set. *)
Lemma strategies_agree_when_sequential_returns (W : World) (titles : list pystr) (outdir : pystr)
    (st0 : State) (agg : Z * Z) :
  (run_sequential W titles outdir st0).1 = Returned agg →
  ∃ keys : gset path,
    ∀ (workers_t workers_p : option Z)
      (started_t completed_t started_p completed_p : list nat) (st : State),
      pool_size_ok workers_t → pool_size_ok workers_p →
      schedule (length titles) started_t →
      schedule (length titles) completed_t →
      schedule (length titles) started_p →
      schedule (length titles) completed_p →
      let sequential := run_sequential W titles outdir st in
      let threads :=
        run_threads W titles outdir workers_t started_t completed_t st in
      let processes :=
        run_processes W titles outdir workers_p started_p completed_p st in
      sequential.1 = Returned agg
      ∧ threads.1 = Returned agg
      ∧ processes.1 = Returned agg
      ∧ dom (files sequential.2) = dom (files st) ∪ keys
      ∧ dom (files threads.2) = dom (files st) ∪ keys
      ∧ dom (files processes.2) = dom (files st) ∪ keys.
Proof.
  intros Hseq. exists (written_keys W outdir titles).
  intros mt mp st_t ct st_p cp st Hmt Hmp Hst Hct Hsp Hcp.
  destruct (run_sequential_cases W titles outdir st0)
    as [[Hp Hr]|(d & t & rest & e & _ & _ & _ & Hr)];
    rewrite Hr in Hseq; [|done].
  injection Hseq as <-.
  destruct (run_sequential_cases W titles outdir st)
    as [[_ Hr']|(d & t & rest & e & -> & _ & He & _)].
  - cbv zeta.
    rewrite Hr', run_threads_run, run_processes_run
      by auto using seq_returns_pool_accepted.
    cbn [fst snd files]. unfold written_keys.
    repeat split; try done.
    + apply dom_run_writes.
    + rewrite (dom_run_writes_perm _ _ _ titles) by by apply lookup_schedule.
      apply dom_run_writes.
    + rewrite (dom_run_writes_perm _ _ _ titles) by by apply lookup_schedule.
      apply dom_run_writes.
  - apply Forall_app in Hp as [_ Hp]. apply Forall_cons in Hp as [[q Hq] _].
    congruence.
Qed.

Example strategies_agree_on_stub :
  ∃ keys : gset path,
    (run_threads stub_world ABC (str "wiki_dl") None
       [2; 0; 1]%nat [1; 2; 0]%nat empty_state).1 = Returned (2, 1)
    ∧ (run_processes stub_world ABC (str "wiki_dl") (Some 2)
         [1; 2; 0]%nat [2; 0; 1]%nat empty_state).1 = Returned (2, 1)
    ∧ dom (files (run_threads stub_world ABC (str "wiki_dl") None
                    [2; 0; 1]%nat [1; 2; 0]%nat empty_state).2)
      = dom (files empty_state) ∪ keys
    ∧ dom (files (run_sequential stub_world ABC (str "wiki_dl")
                    empty_state).2)
      = dom (files empty_state) ∪ keys.
Proof.
  destruct (strategies_agree_when_sequential_returns stub_world ABC (str "wiki_dl") empty_state
              (2, 1) eq_refl) as [keys H].
  exists keys.
  destruct (H None (Some 2) [2; 0; 1]%nat [1; 2; 0]%nat
              [1; 2; 0]%nat [2; 0; 1]%nat empty_state
              I eq_refl schedule_201 schedule_120 schedule_120 schedule_201)
    as (_ & Ht & Hp & Hds & Hdt & _).
  repeat split; assumption.
Qed.

(** ** A storage fault under the three strategies *)

(** C3. On the batch A, B, C over a storage that refuses the file of B,
    the sequential strategy does not return: the error of the persist
    step leaves [run_sequential], after A was written and reported and
    before C is looked at. Both pools, on the same batch, count B as
    skipped and return. *)
Theorem C3_sequential_persist_error_escapes :
  let run := run_sequential faulty_storage_world ABC (str "wiki_dl")
               empty_state in
  run.1 = Raised (Exn OSError (str "[Errno 13] Permission denied"))
  ∧ stdout run.2 = [line_wrote (str "A.txt")]
  ∧ is_Some (files run.2 !! (str "wiki_dl", str "A.txt"))
  ∧ files run.2 !! (str "wiki_dl", str "C.txt") = None
  ∧ (run_threads faulty_storage_world ABC (str "wiki_dl") None
       [0; 1; 2]%nat [0; 1; 2]%nat empty_state).1 = Returned (2, 1)
  ∧ (run_processes faulty_storage_world ABC (str "wiki_dl") None
       [0; 1; 2]%nat [0; 1; 2]%nat empty_state).1 = Returned (2, 1).
Proof.
  cbv zeta. repeat split; try (vm_compute; reflexivity).
  vm_compute. eexists. reflexivity.
Qed.

(** C4. On the batch A, B, C over a storage that refuses the file of B
    the strategies do not agree, although the content source answers each
    identifier in one way: the sequential run stops at B, returns no
    aggregate and has written the key of A only; both pools return
    ok = 2, skipped = 1 and have written the keys of A and C. *)
Theorem C4_strategies_differ_on_persist_error :
  let sequential :=
    run_sequential faulty_storage_world ABC (str "wiki_dl") empty_state in
  let threads :=
    run_threads faulty_storage_world ABC (str "wiki_dl") None
      [0; 1; 2]%nat [0; 1; 2]%nat empty_state in
  let processes :=
    run_processes faulty_storage_world ABC (str "wiki_dl") None
      [0; 1; 2]%nat [0; 1; 2]%nat empty_state in
  (∀ agg, sequential.1 ≠ Returned agg)
  ∧ threads.1 = Returned (2, 1)
  ∧ processes.1 = Returned (2, 1)
  ∧ dom (files sequential.2)
    = ({[ (str "wiki_dl", str "A.txt") ]} : gset path)
  ∧ dom (files threads.2)
    = ({[ (str "wiki_dl", str "A.txt"); (str "wiki_dl", str "C.txt") ]}
       : gset path)
  ∧ dom (files processes.2)
    = ({[ (str "wiki_dl", str "A.txt"); (str "wiki_dl", str "C.txt") ]}
       : gset path).
Proof.
  cbv zeta. repeat split; try (vm_compute; reflexivity).
  intros agg. vm_compute. discriminate.
Qed.

(** The same holds in general, on an output that accepts every line: the
    first persist error of a batch is the outcome of the sequential run. *)
Lemma run_sequential_persist_error (W : World) (outdir : pystr)
    (done_ : list pystr) (t : pystr) (rest : list pystr) (e : exn)
    (st : State) :
  stdout_accepts W →
  Forall (persist_returns W outdir) done_ →
  item_result W outdir t = Raised e →
  (run_sequential W (done_ ++ t :: rest) outdir st).1 = Raised e.
Proof.
  intros Hacc Hd He. unfold run_sequential.
  rewrite (run_sequential_loop_raises W outdir done_ t rest e); try done.
  - by apply persist_returns_seq.
  - by rewrite seq_result_accepted.
Qed.

(** On such an output a pool never lets the error of a task out of its
    run. *)
Lemma pools_return (W : World) (titles : list pystr) (outdir : pystr)
    (max_workers : option Z) (started completed : list nat) (st : State) :
  stdout_accepts W → pool_size_ok max_workers →
  (∃ agg, (run_threads W titles outdir max_workers started completed st).1
          = Returned agg)
  ∧ (∃ agg, (run_processes W titles outdir max_workers started completed st).1
            = Returned agg).
Proof.
  intros Hacc Hmw.
  rewrite run_threads_state, run_processes_state by auto using accepts_all.
  split; eexists; reflexivity.
Qed.

(** ** The stub scenario *)

Lemma stub_writes (outdir : pystr) (order : list nat) :
  schedule 3 order →
  run_writes stub_world outdir (omap (ABC !!.) order) ∅
  = <[(outdir, str "A.txt") := r1_r2]>
      {[ (outdir, str "C.txt") := EmptyString ]}.
Proof.
  intros Ho.
  assert (HA : task_write stub_world outdir (str "A")
               = Some ((outdir, str "A.txt"), r1_r2))
    by (vm_compute; reflexivity).
  assert (HB : task_write stub_world outdir (str "B") = None)
    by (vm_compute; reflexivity).
  assert (HC : task_write stub_world outdir (str "C")
               = Some ((outdir, str "C.txt"), EmptyString))
    by (vm_compute; reflexivity).
  assert (Hne : (outdir, str "C.txt") ≠ (outdir, str "A.txt")) by by intros [=].
  apply schedule_3_cases in Ho. rewrite !elem_of_cons, elem_of_nil in Ho.
  unfold ABC.
  destruct Ho as [->|[->|[->|[->|[->|[->|[]]]]]]];
    cbn [omap list_omap lookup list_lookup];
    rewrite !run_writes_cons, ?HA, ?HB, ?HC; cbn [write_files run_writes foldl];
    first [ done | by rewrite insert_insert_ne ].
Qed.

(** C6. In the stub scenario (the search for x with limit 3 gives the
    batch A, B, C; A has the references r1 and r2, B times out, C has no
    reference) every strategy returns ok = 2 and
    skipped = 1 and, from an empty storage, leaves exactly two files: the
    one of A with the two lines and the one of C, empty; there is no file
    for B. For the pools this holds under every schedule. *)
Theorem C6_stub_scenario (outdir : pystr) (max_workers : option Z)
    (started completed : list nat) (run : outcome (Z * Z) * State) :
  pool_size_ok max_workers →
  schedule 3 started → schedule 3 completed →
  run ∈ [run_sequential stub_world ABC outdir empty_state;
         run_threads stub_world ABC outdir max_workers started completed
           empty_state;
         run_processes stub_world ABC outdir max_workers started completed
           empty_state] →
  search_related stub_world (str "x") 3 = Returned ABC
  ∧ run.1 = Returned (2, 1)
  ∧ files run.2 !! (outdir, str "A.txt") = Some r1_r2
  ∧ files run.2 !! (outdir, str "C.txt") = Some EmptyString
  ∧ files run.2 !! (outdir, str "B.txt") = None
  ∧ dom (files run.2)
    = ({[ (outdir, str "A.txt"); (outdir, str "C.txt") ]} : gset path).
Proof.
  intros Hmw Hs Hc Hrun.
  assert (Hcount : count_ok (item_ok stub_world outdir) ABC = 2
                   ∧ count_skipped (item_ok stub_world outdir) ABC = 1)
    by (split; vm_compute; reflexivity).
  destruct Hcount as [Hok Hsk].
  assert (Hfs : run.1 = Returned (2, 1)
                ∧ files run.2
                  = <[(outdir, str "A.txt") := r1_r2]>
                      {[ (outdir, str "C.txt") := EmptyString ]}).
  { apply elem_of_cons in Hrun as [->|Hrun];
      [|apply elem_of_cons in Hrun as [->|Hrun];
        [|apply list_elem_of_singleton in Hrun as ->]].
    - destruct (run_sequential_cases stub_world ABC outdir empty_state)
        as [[_ ->]|(d & t & rest & e & Heq & _ & He & _)].
      + cbn [fst snd files]. rewrite Hok, Hsk. split; [done|].
        apply (stub_writes outdir [0; 1; 2]%nat). unfold schedule. done.
      + pose proof (persist_returns_seq stub_world outdir ABC
                      stub_stdout_accepts (stub_persist_returns outdir)) as Hp.
        rewrite Heq in Hp. apply Forall_app in Hp as [_ Hp].
        apply Forall_cons in Hp as [[q Hq] _]. congruence.
    - rewrite run_threads_run
        by auto using accepts_all, stub_stdout_accepts.
      cbn [fst snd files].
      rewrite Hok, Hsk. split; [done|]. by apply stub_writes.
    - rewrite run_processes_run
        by auto using accepts_all, stub_stdout_accepts.
      cbn [fst snd files].
      rewrite Hok, Hsk. split; [done|]. by apply stub_writes. }
  destruct Hfs as [-> ->]. split; [done|]. split; [done|].
  assert (HCA : (outdir, str "A.txt") ≠ (outdir, str "C.txt")) by by intros [=].
  assert (HBA : (outdir, str "A.txt") ≠ (outdir, str "B.txt")) by by intros [=].
  assert (HBC : (outdir, str "C.txt") ≠ (outdir, str "B.txt")) by by intros [=].
  repeat split.
  - apply lookup_insert_eq.
  - rewrite lookup_insert_ne by done. apply lookup_singleton_eq.
  - rewrite lookup_insert_ne, lookup_singleton_ne by done. done.
  - by rewrite dom_insert_L, dom_singleton_L.
Qed.

Lemma C6_witness :
  (run_threads stub_world ABC (str "wiki_dl") (Some 4)
     [2; 0; 1]%nat [1; 2; 0]%nat empty_state).1 = Returned (2, 1)
  ∧ files (run_threads stub_world ABC (str "wiki_dl") (Some 4)
             [2; 0; 1]%nat [1; 2; 0]%nat empty_state).2
      !! (str "wiki_dl", str "A.txt") = Some r1_r2.
Proof.
  destruct (C6_stub_scenario (str "wiki_dl") (Some 4)
              [2; 0; 1]%nat [1; 2; 0]%nat
              (run_threads stub_world ABC (str "wiki_dl") (Some 4)
                 [2; 0; 1]%nat [1; 2; 0]%nat empty_state)
              eq_refl schedule_201 schedule_120)
    as (_ & H1 & H2 & _).
  - right. left.
  - split; assumption.
Defined.

(** ** Isolation of a crashed task *)

Lemma renumber_all (i n : nat) :
  omap (renumber i) (seq 0 n)
  = seq 0 (if decide (n ≤ i)%nat then n else pred n).
Proof.
  induction n as [|n IH]; [done|].
  rewrite seq_S, omap_app, IH. cbn [omap list_omap]. unfold renumber.
  repeat case_decide; try lia; cbn [app]; rewrite ?app_nil_r; try done.
  - by rewrite <- seq_S.
  - destruct n as [|n]; [lia|]. cbn [pred]. by rewrite <- seq_S.
Qed.

Lemma drop_task_schedule (i n : nat) (order : list nat) :
  (i < n)%nat → schedule n order → schedule (n - 1) (drop_task i order).
Proof.
  unfold schedule, drop_task. intros Hi ->. rewrite renumber_all.
  case_decide; [lia|]. by rewrite Nat.sub_1_r.
Qed.

Lemma submitted_app (W : World) (outdir : pystr) (titles : list pystr)
    (o1 o2 : list nat) :
  submitted W outdir titles (o1 ++ o2)
  = submitted W outdir titles o1 ++ submitted W outdir titles o2.
Proof. apply omap_app. Qed.

Lemma submitted_drop_task (W : World) (outdir : pystr) (titles : list pystr)
    (i : nat) (order : list nat) :
  i ∉ order →
  submitted W outdir (delete i titles) (drop_task i order)
  = submitted W outdir titles order.
Proof.
  unfold submitted, drop_task.
  induction order as [|j order IH]; intros Hi; [done|].
  apply not_elem_of_cons in Hi as [Hne Hi].
  cbn [omap list_omap]. unfold renumber at 1.
  rewrite decide_False by done. cbn [omap list_omap]. rewrite IH by done.
  case_decide.
  - by rewrite list_lookup_delete_lt.
  - destruct j as [|j]; [lia|]. cbn [pred].
    rewrite list_lookup_delete_ge by lia. done.
Qed.

Lemma drop_task_app (i : nat) (o1 o2 : list nat) :
  drop_task i (o1 ++ i :: o2) = drop_task i o1 ++ drop_task i o2.
Proof.
  unfold drop_task. rewrite omap_app. cbn [omap list_omap].
  unfold renumber at 2. by rewrite decide_True.
Qed.

(** The futures delivered to the loop, with and without the task [i]. *)
Lemma submitted_isolated (W : World) (outdir : pystr) (titles : list pystr)
    (completed : list nat) (i : nat) (t : pystr) :
  schedule (length titles) completed →
  titles !! i = Some t →
  ∃ d1 d2,
    submitted W outdir titles completed
    = d1 ++ (t, worker_result W outdir t) :: d2
    ∧ submitted W outdir (delete i titles) (drop_task i completed) = d1 ++ d2.
Proof.
  intros Hc Ht.
  assert (Hin : i ∈ completed).
  { apply (schedule_elem_of _ _ _ Hc). by eapply lookup_lt_Some. }
  assert (Hnd : NoDup completed).
  { unfold schedule in Hc. rewrite Hc. apply NoDup_seq. }
  apply list_elem_of_split in Hin as (c1 & c2 & ->).
  apply NoDup_app in Hnd as (_ & H1 & Hnd).
  apply NoDup_cons in Hnd as [H2 _].
  exists (submitted W outdir titles c1), (submitted W outdir titles c2).
  split.
  - rewrite submitted_app. f_equal. unfold submitted at 1.
    cbn [omap list_omap]. by rewrite Ht.
  - rewrite drop_task_app, submitted_app.
    rewrite !submitted_drop_task; [done|done|].
    intros Hi. apply (H1 i Hi). by left.
Qed.

Lemma worker_raises (W : World) (t outdir : pystr) (st : State) (e : exn) :
  (_process_worker W t outdir st).1 = Raised e →
  worker_result W outdir t = Raised e.
Proof. by rewrite process_worker_run. Qed.



(** * Further properties of the program *)

(** ** The search term *)

Lemma strip_idem (s : pystr) : strip (strip s) = strip s.
Proof.
  unfold strip. destruct (rstrip_prefix (lstrip s)) as [k Hk].
  rewrite lstrip_id, rstrip_idem; [done|].
  apply (head_not_space_app _ k). rewrite <- Hk. apply head_not_space_lstrip.
Qed.

Lemma coerce_search_term_shape (term : option pystr) :
  (4 ≤ length (coerce_search_term term))%nat
  ∧ strip (coerce_search_term term) = coerce_search_term term.
Proof.
  assert (Hd : (4 ≤ length DEFAULT_TERM)%nat ∧ strip DEFAULT_TERM = DEFAULT_TERM)
    by (split; vm_compute; [lia|reflexivity]).
  destruct term as [[|c t]|]; cbn [coerce_search_term]; try done.
  destruct (Nat.ltb_spec (length (strip (c :: t))) 4); [done|].
  split; [done|apply strip_idem].
Qed.

(** X1. The term the driver searches for is the default term or the given
    term without its surrounding white space; in both cases it has at
    least four characters and no surrounding white space. Nothing, the
    empty string and a term that is shorter than four characters once it
    is stripped give the default term. *)
Theorem coerce_search_term_result (term : option pystr) :
  let r := coerce_search_term term in
  (r = DEFAULT_TERM ∨ ∃ t, term = Some t ∧ r = strip t)
  ∧ (4 ≤ length r)%nat
  ∧ strip r = r
  ∧ (r = DEFAULT_TERM ↔
       term = None ∨ term = Some []
       ∨ ∃ t, term = Some t
              ∧ ((length (strip t) < 4)%nat ∨ strip t = DEFAULT_TERM)).
Proof.
  assert (Hd : (4 ≤ length DEFAULT_TERM)%nat ∧ strip DEFAULT_TERM = DEFAULT_TERM)
    by (split; vm_compute; [lia|reflexivity]).
  destruct Hd as [Hd1 Hd2].
  destruct term as [[|c t]|]; cbn [coerce_search_term].
  - split; [by left|]. split; [done|]. split; [done|].
    split; [intros _; right; by left|done].
  - destruct (Nat.ltb_spec (length (strip (c :: t))) 4) as [Hlt|Hge].
    + split; [by left|]. split; [done|]. split; [done|].
      split; [intros _; right; right; eauto|done].
    + split; [right; eauto|]. split; [done|]. split; [apply strip_idem|].
      split.
      * intros Heq. right. right. eauto.
      * intros [?|[?|(t' & [= <-] & [Hlt|Heq])]]; try done. lia.
  - split; [by left|]. split; [done|]. split; [done|].
    split; [intros _; by left|done].
Qed.

(** X2. Coercing a coerced term changes nothing. *)
Theorem coerce_search_term_idempotent (term : option pystr) :
  coerce_search_term (Some (coerce_search_term term))
  = coerce_search_term term.
Proof.
  destruct (coerce_search_term_shape term) as [Hlen Hstrip].
  destruct (coerce_search_term term) as [|c r]; [simpl in Hlen; lia|].
  cbn [coerce_search_term]. rewrite Hstrip.
  destruct (Nat.ltb_spec (length (c :: r)) 4); [lia|done].
Qed.

(** ** The search *)

(** X3. [search_related] returns the first titles of the answer of the
    client, in its order: as many as the limit allows and none for a limit
    that is zero or negative; an answer that is nothing gives the empty
    list, and an error of the client is not caught. *)
Theorem search_related_bound (W : World) (term : pystr) (limit : Z) :
  (∀ e, wikipedia_search W term = Raised e →
        search_related W term limit = Raised e)
  ∧ (∀ results, wikipedia_search W term = Returned results →
       ∃ titles,
         search_related W term limit = Returned titles
         ∧ titles `prefix_of` or_empty results
         ∧ Z.of_nat (length titles)
           = Z.min (Z.max 0 limit) (Z.of_nat (length (or_empty results)))).
Proof.
  unfold search_related. split.
  - by intros e ->.
  - intros results ->. eexists. split; [reflexivity|]. split.
    + apply prefix_take.
    + rewrite length_take. lia.
Qed.

(** ** More on [safe_filename] *)

Lemma ws_normal_lookup (s : pystr) (i : nat) (c : N) :
  ws_normal s → s !! i = Some c → is_space c = true →
  c = 32%N ∧ ∀ d, s !! S i = Some d → is_space d = false.
Proof.
  revert i. induction s as [|a s IH]; intros i Hn Hi Hc; [done|].
  destruct Hn as [Ha Hs]. destruct i as [|i].
  - injection Hi as ->. destruct (Ha Hc) as [-> Hnext]. split; [done|].
    intros d Hd. destruct s; [done|]. by injection Hd as <-.
  - by apply (IH i).
Qed.

Lemma rstrip_fixed_last (s : pystr) (i : nat) (c : N) :
  rstrip s = s → s !! i = Some c → s !! S i = None → is_space c = false.
Proof.
  revert i. induction s as [|a s IH]; intros i Hr Hi Hl; [done|].
  cbn [rstrip] in Hr. destruct i as [|i].
  - injection Hi as ->. destruct s; [|done]. cbn in Hr.
    by destruct (is_space c).
  - apply (IH i); try done.
    destruct (rstrip s) as [|b r] eqn:Hs.
    + destruct s; [done|]. by destruct (is_space a).
    + by injection Hr.
Qed.

(** X4. White space in a sanitized name: the name neither starts nor ends
    with white space, and every white-space character in it is a plain
    space that stands between two characters that are not white space
    (no tab, no line break, no run of spaces). *)
Theorem safe_filename_white_space (s : pystr) (i : nat) (c : N) :
  safe_filename s !! i = Some c → is_space c = true →
  c = 32%N
  ∧ (∃ j a, i = S j ∧ safe_filename s !! j = Some a ∧ is_space a = false)
  ∧ (∃ b, safe_filename s !! S i = Some b ∧ is_space b = false).
Proof.
  destruct (safe_filename_shape s) as (_ & Hn & Hh & Hr & _). cbv zeta in *.
  set (o := safe_filename s) in *. intros Hi Hc.
  destruct (ws_normal_lookup o i c Hn Hi Hc) as [-> Hnext].
  split; [done|]. split.
  - destruct i as [|j].
    + destruct o as [|a o]; [done|]. injection Hi as ->.
      simpl in Hh. congruence.
    + destruct (o !! j) as [a|] eqn:Hj.
      * exists j, a. repeat split; try done.
        destruct (is_space a) eqn:Ha; [|done].
        destruct (ws_normal_lookup o j a Hn Hj Ha) as [_ Hnj].
        specialize (Hnj _ Hi). done.
      * apply lookup_ge_None in Hj. apply lookup_lt_Some in Hi. lia.
  - destruct (o !! S i) as [b|] eqn:Hb.
    + exists b. split; [done|]. by apply Hnext.
    + pose proof (rstrip_fixed_last o i 32%N Hr Hi Hb). done.
Qed.

Lemma safe_filename_witness_space :
  32%N = 32%N
  ∧ (∃ j a, 5%nat = S j
            ∧ safe_filename (str "AC/DC  live") !! j = Some a
            ∧ is_space a = false)
  ∧ (∃ b, safe_filename (str "AC/DC  live") !! 6%nat = Some b
          ∧ is_space b = false).
Proof.
  exact (safe_filename_white_space (str "AC/DC  live") 5 32%N eq_refl eq_refl).
Defined.

(** X5. The names [safe_filename] leaves unchanged are exactly the clean
    ones: no character of the forbidden class, white space only as single
    plain spaces between other characters, at most 150 characters. *)
Theorem safe_filename_fixed_points (s : pystr) :
  safe_filename s = s ↔ clean_name s.
Proof.
  split.
  - intros Hs. pose proof (safe_filename_shape s) as H. cbv zeta in H.
    by rewrite Hs in H.
  - intros (F & Nw & D & R & L).
    unfold safe_filename, strip, re_sub_plus.
    rewrite (sub_runs_id _ _ _ s F).
    change (str " ") with [32%N].
    destruct (sub_space_id s Nw) as [-> _].
    by rewrite (lstrip_id s D), R, take_ge, R.
Qed.

Lemma sub_runs_length (cls : N → bool) (c : N) (b : bool) (s : pystr) :
  (length (sub_runs cls [c] b s) ≤ length s)%nat.
Proof.
  revert b. induction s as [|a s IH]; intros b; simpl; [done|].
  destruct (cls a); [destruct b|]; simpl;
    [specialize (IH true)|specialize (IH true)|specialize (IH false)]; lia.
Qed.

Lemma lstrip_suffix (s : pystr) : ∃ k, s = k ++ lstrip s.
Proof.
  induction s as [|a s [k Hk]]; simpl; [by exists []|].
  destruct (is_space a).
  - exists (a :: k). simpl. by rewrite <- Hk.
  - by exists [].
Qed.

(** X6. A sanitized name is never longer than the given one, and each of
    its characters is a character of the given name, an underscore or a
    plain space. *)
Theorem safe_filename_characters (s : pystr) :
  (length (safe_filename s) ≤ length s)%nat
  ∧ ∀ c, c ∈ safe_filename s → c ∈ s ∨ c = 95%N ∨ c = 32%N.
Proof.
  unfold safe_filename, strip, re_sub_plus.
  set (s1 := sub_runs is_illegal (str "_") false s).
  set (s2 := sub_runs is_space (str " ") false s1).
  destruct (rstrip_prefix (take 150 (rstrip (lstrip s2)))) as [k4 Hk4].
  destruct (rstrip_prefix (lstrip s2)) as [k3 Hk3].
  destruct (lstrip_suffix s2) as [k2 Hk2].
  split.
  - pose proof (sub_runs_length is_illegal 95 false s) as L1.
    pose proof (sub_runs_length is_space 32 false s1) as L2.
    change (length s1 ≤ length s)%nat in L1.
    change (length s2 ≤ length s1)%nat in L2.
    apply (f_equal length) in Hk4, Hk3, Hk2.
    rewrite length_app in Hk4, Hk3, Hk2. rewrite length_take in Hk4. lia.
  - set (P := λ c : N, c ∈ s ∨ c = 95%N ∨ c = 32%N).
    assert (H1 : Forall P s1).
    { apply sub_runs_Forall.
      - change (str "_") with [95%N].
        constructor; [right; by left|constructor].
      - apply Forall_forall. intros c Hc. by left. }
    assert (H2 : Forall P s2).
    { apply sub_runs_Forall; [|done]. change (str " ") with [32%N].
      constructor; [right; by right|constructor]. }
    rewrite Hk2 in H2. apply Forall_app in H2 as [_ H2].
    rewrite Hk3 in H2. apply Forall_app in H2 as [H2 _].
    rewrite <- (take_drop 150 (rstrip (lstrip s2))) in H2.
    apply Forall_app in H2 as [H2 _].
    rewrite Hk4 in H2. apply Forall_app in H2 as [H2 _].
    rewrite Forall_forall in H2. exact H2.
Qed.

(** ** More on the item processor and the result sink *)

(** X7. The fetch of an identifier succeeds exactly when the content
    source does not fail on it, and a success carries the title of the
    page and its references in their order (none when the page has no
    list of references). *)
Theorem fetch_succeeds_iff_source_does (W : World) (t : pystr) :
  ∃ r, fetch_page_references W t = Returned r
    ∧ (error r = None ↔ source_failure W t = None)
    ∧ (∀ page refs,
         wikipedia_page W t = Returned page →
         page_references page = Returned refs →
         r = mkFetchResult (page_title page) (or_empty refs) None).
Proof.
  destruct (source_failure W t) as [e|] eqn:Hs.
  - destruct (fetch_failure W t e Hs) as (label & Hf & _).
    eexists. split; [exact Hf|]. split; [done|].
    intros page refs Hp Hr. unfold source_failure in Hs.
    rewrite Hp, Hr in Hs. done.
  - destruct (fetch_success W t Hs) as (page & refs & Hp & Hr & Hf).
    eexists. split; [exact Hf|]. split; [done|].
    intros page' refs' Hp' Hr'. rewrite Hp in Hp'. injection Hp' as <-.
    rewrite Hr in Hr'. by injection Hr' as <-.
Qed.

Lemma save_references_written (W : World) (r : FetchResult) (outdir : pystr)
    (st : State) (p : path) (st' : State) :
  error r = None →
  save_references W r outdir st = (Returned (Some p), st') →
  p = (outdir, safe_filename (title r) ++ str ".txt")
  ∧ ∃ bytes, utf8_encode (join newline (references r)) = Some bytes
      ∧ st' = mkState (<[p := bytes]> (files st)) (stdout st).
Proof.
  intros Herr. rewrite save_references_run.
  unfold persist_result, persist_write, apply_write, target. rewrite Herr.
  destruct (open_error W _) as [e|]; [done|].
  destruct (utf8_encode _) as [bytes|]; [|done].
  intros [= <- <-]. split; [done|]. by exists bytes.
Qed.


(** X9. Persisting the same outcome a second time changes nothing: the
    call returns (or raises) as the first time and the storage stays as
    the first call left it. *)
Theorem save_references_twice (W : World) (r : FetchResult) (outdir : pystr)
    (st : State) :
  save_references W r outdir (save_references W r outdir st).2
  = save_references W r outdir st.
Proof.
  rewrite !save_references_run. cbn [snd]. f_equal.
  unfold apply_write. cbn [files stdout]. f_equal.
  destruct (persist_write W outdir r) as [[p bytes]|]; [|done].
  cbn [write_files]. apply insert_insert_eq.
Qed.

(** ** More on the strategies *)

Lemma run_writes_lookup (W : World) (outdir : pystr) (ts : list pystr)
    (fs : gmap path string) (p : path) :
  run_writes W outdir ts fs !! p
  = match last_write W outdir p ts with
    | Some bytes => Some bytes
    | None => fs !! p
    end.
Proof.
  revert fs. induction ts as [|t ts IH]; intros fs; [done|].
  rewrite run_writes_cons, IH. cbn [last_write].
  destruct (last_write W outdir p ts); [done|].
  destruct (task_write W outdir t) as [[q bytes]|]; cbn [write_files]; [|done].
  case_decide as Hq.
  - subst q. apply lookup_insert_eq.
  - by apply lookup_insert_ne.
Qed.

Lemma run_writes_idem (W : World) (outdir : pystr) (ts : list pystr)
    (fs : gmap path string) :
  run_writes W outdir ts (run_writes W outdir ts fs)
  = run_writes W outdir ts fs.
Proof.
  apply map_eq. intros p. rewrite !run_writes_lookup.
  by destruct (last_write W outdir p ts).
Qed.

Lemma pool_size_rejected (W : World) (titles : list pystr) (outdir : pystr)
    (max_workers : option Z) (started completed : list nat) (st : State) :
  ¬ pool_size_ok max_workers →
  run_threads W titles outdir max_workers started completed st
  = (Raised pool_size_error, st)
  ∧ run_processes W titles outdir max_workers started completed st
    = (Raised pool_size_error, st).
Proof.
  intros Hmw. unfold run_threads, run_processes, mbind, M_bind.
  destruct max_workers as [n|]; [|done]. cbn [pool_size_ok] in Hmw.
  cbn [Executor]. destruct (Z.leb_spec n 0); [done|lia].
Qed.

(** What a run does does not depend on the state it starts from: its
    outcome is fixed, and it writes the files of a fixed list of tasks. *)
Lemma strategies_uniform (W : World) (titles : list pystr) (outdir : pystr)
    (max_workers : option Z) (started completed : list nat)
    (run : M (Z * Z)) :
  run ∈ [run_sequential W titles outdir;
         run_threads W titles outdir max_workers started completed;
         run_processes W titles outdir max_workers started completed] →
  ∃ ts o, ∀ st,
    (run st).1 = o ∧ files (run st).2 = run_writes W outdir ts (files st).
Proof.
  intros Hrun.
  apply elem_of_cons in Hrun as [->|Hrun];
    [|apply elem_of_cons in Hrun as [->|Hrun];
      [|apply list_elem_of_singleton in Hrun as ->]].
  - destruct (items_return_or_raise W outdir titles)
      as [Hall|(d & t & rest & e & -> & Hd & He)].
    + eexists titles, _. intros st. unfold run_sequential.
      rewrite run_sequential_loop_returns by done. cbn [fst snd files]; split; reflexivity.
    + eexists (d ++ [t]), _. intros st. unfold run_sequential.
      rewrite (run_sequential_loop_raises W outdir d t rest e) by done.
      cbn [fst snd files]; split; reflexivity.
  - destruct (pool_size_ok_dec max_workers) as [Hmw|Hmw].
    + destruct (pool_trace W (str "thread error: ")
                  (delivered titles (task_futures W outdir titles started ∅)
                     completed)) as [[o inc] ls] eqn:Htr.
      exists (omap (titles !!.) started),
        (match o with Returned _ => Returned inc | Raised e => Raised e end).
      intros st. rewrite run_threads_trace by done. by rewrite Htr.
    + eexists [], _. intros st.
      destruct (pool_size_rejected W titles outdir max_workers started
                  completed st Hmw) as [-> _]. cbn [fst snd files]; split; reflexivity.
  - destruct (pool_size_ok_dec max_workers) as [Hmw|Hmw].
    + destruct (pool_trace W (str "process error: ")
                  (delivered titles (task_futures W outdir titles started ∅)
                     completed)) as [[o inc] ls] eqn:Htr.
      exists (omap (titles !!.) started),
        (match o with Returned _ => Returned inc | Raised e => Raised e end).
      intros st. rewrite run_processes_trace by done. by rewrite Htr.
    + eexists [], _. intros st.
      destruct (pool_size_rejected W titles outdir max_workers started
                  completed st Hmw) as [_ ->]. cbn [fst snd files]; split; reflexivity.
Qed.

(** X10. Running a batch again over the storage it left (same strategy,
    same schedule, same answers of the content source) gives the same
    outcome and leaves every file as it was after the first run: files
    are overwritten with the same bytes and no other file appears. *)
Theorem rerun_changes_no_file (W : World) (titles : list pystr)
    (outdir : pystr) (max_workers : option Z) (started completed : list nat)
    (run : M (Z * Z)) (st : State) :
  run ∈ [run_sequential W titles outdir;
         run_threads W titles outdir max_workers started completed;
         run_processes W titles outdir max_workers started completed] →
  (run (run st).2).1 = (run st).1
  ∧ files (run (run st).2).2 = files (run st).2.
Proof.
  intros Hrun.
  destruct (strategies_uniform _ _ _ _ _ _ _ Hrun) as (ts & o & H).
  destruct (H st) as [Ho Hf]. destruct (H (run st).2) as [Ho' Hf'].
  split; [congruence|]. rewrite Hf', Hf. apply run_writes_idem.
Qed.

Lemma rerun_witness :
  files (run_threads stub_world ABC (str "wiki_dl") None
           [2; 0; 1]%nat [1; 2; 0]%nat
           (run_threads stub_world ABC (str "wiki_dl") None
              [2; 0; 1]%nat [1; 2; 0]%nat empty_state).2).2
  = files (run_threads stub_world ABC (str "wiki_dl") None
             [2; 0; 1]%nat [1; 2; 0]%nat empty_state).2.
Proof.
  refine (proj2 (rerun_changes_no_file stub_world ABC (str "wiki_dl") None
                   [2; 0; 1]%nat [1; 2; 0]%nat
                   (run_threads stub_world ABC (str "wiki_dl") None
                      [2; 0; 1]%nat [1; 2; 0]%nat) empty_state _)).
  right. left.
Defined.

Lemma last_write_None (W : World) (outdir : pystr) (p : path)
    (ts : list pystr) :
  (∀ t bytes, t ∈ ts → task_write W outdir t ≠ Some (p, bytes)) →
  last_write W outdir p ts = None.
Proof.
  induction ts as [|t ts IH]; intros H; [done|].
  cbn [last_write]. rewrite IH by (intros t' b Ht'; apply H; by right).
  destruct (task_write W outdir t) as [[q bytes]|] eqn:Hw; [|done].
  case_decide as Hq; [|done]. subst q.
  exfalso. apply (H t bytes); [by left|done].
Qed.

Lemma item_written (W : World) (outdir t : pystr) (q : option path) :
  item_result W outdir t = Returned q →
  error (fetched W t) = None →
  ∃ bytes,
    utf8_encode (join newline (references (fetched W t))) = Some bytes
    ∧ task_write W outdir t = Some (target outdir (fetched W t), bytes).
Proof.
  unfold item_result, task_write, persist_result, persist_write.
  intros Hq Herr. rewrite Herr in *.
  destruct (open_error W _); [done|].
  destruct (utf8_encode _) as [bytes|]; [|done]. by exists bytes.
Qed.

(** X11. Two identifiers whose pages get the same sanitized name share
    one file, and the later one wins: after a sequential run that
    returns, the file of a successfully fetched identifier holds its
    references unless a later identifier of the batch was fetched with the
    same sanitized name. *)
Theorem sequential_last_writer_wins (W : World) (before : list pystr)
    (t : pystr) (after : list pystr) (outdir : pystr) (st st' : State)
    (agg : Z * Z) (r : FetchResult) :
  run_sequential W (before ++ t :: after) outdir st = (Returned agg, st') →
  fetch_page_references W t = Returned r →
  error r = None →
  (∀ t' r', t' ∈ after →
     fetch_page_references W t' = Returned r' → error r' = None →
     safe_filename (title r') ≠ safe_filename (title r)) →
  ∃ bytes,
    utf8_encode (join newline (references r)) = Some bytes
    ∧ files st' !! (outdir, safe_filename (title r) ++ str ".txt")
      = Some bytes.
Proof.
  intros Hrun Hr Herr Hafter.
  rewrite fetch_page_references_returns in Hr. injection Hr as <-.
  destruct (run_sequential_cases W (before ++ t :: after) outdir st)
    as [[Hp Hret]|(d & t0 & rest & e & _ & _ & _ & Hraise)];
    [|congruence].
  rewrite Hret in Hrun. injection Hrun as _ <-. cbn [files].
  apply Forall_app in Hp as [_ Hp]. apply Forall_cons in Hp as [[q Hq] _].
  apply seq_result_returned in Hq as [Hq _].
  destruct (item_written W outdir t q Hq Herr) as (bytes & Hb & Hw).
  exists bytes. split; [done|].
  rewrite run_writes_app, run_writes_cons, run_writes_lookup.
  rewrite last_write_None.
  - rewrite Hw. cbn [write_files]. apply lookup_insert_eq.
  - intros t' b Ht' Hw'. apply task_write_success in Hw' as [Herr' Heq].
    unfold target in Heq. injection Heq as Heq. apply app_inv_tail in Heq.
    apply (Hafter t' (fetched W t') Ht'
             (fetch_page_references_returns W t') Herr'). done.
Qed.

Lemma last_writer_witness :
  ∃ bytes,
    utf8_encode (join newline [str "A:B"]) = Some bytes
    ∧ files (run_sequential echo_world [str "A/B"; str "A:B"]
               (str "wiki_dl") empty_state).2
        !! (str "wiki_dl", safe_filename (str "A:B") ++ str ".txt")
      = Some bytes.
Proof.
  refine (sequential_last_writer_wins echo_world [str "A/B"] (str "A:B") []
            (str "wiki_dl") empty_state _ (2, 0)
            (mkFetchResult (str "A:B") [str "A:B"] None) _ eq_refl eq_refl _).
  - vm_compute. reflexivity.
  - intros t' r' Ht'. by apply elem_of_nil in Ht'.
Defined.

Lemma lookups_nil {A} (order : list nat) :
  omap (λ i, (@nil A) !! i) order = [].
Proof. induction order as [|i order IH]; [done|]. cbn. exact IH. Qed.

Lemma delivered_nil (futs : gmap nat future) (completed : list nat) :
  delivered [] futs completed = [].
Proof.
  unfold delivered. induction completed as [|i completed IH]; [done|].
  cbn. exact IH.
Qed.

(** X12. The empty batch: each strategy returns ok = 0 and skipped = 0,
    prints nothing and leaves the storage as it is (the pools whatever
    their schedule, once their size is accepted). *)
Theorem empty_batch (W : World) (outdir : pystr) (max_workers : option Z)
    (started completed : list nat) (st : State) :
  run_sequential W [] outdir st = (Returned (0, 0), st)
  ∧ (pool_size_ok max_workers →
     run_threads W [] outdir max_workers started completed st
     = (Returned (0, 0), st)
     ∧ run_processes W [] outdir max_workers started completed st
       = (Returned (0, 0), st)).
Proof.
  split; [done|]. intros Hmw.
  rewrite run_threads_state, run_processes_state
    by (try done; rewrite delivered_nil; constructor).
  rewrite delivered_nil, lookups_nil. cbn. rewrite app_nil_r.
  by destruct st.
Qed.

(** X13. A pool size that is zero or negative is rejected before any
    task runs: both pools raise the error of the constructor, nothing is
    fetched, written or printed, whatever the batch. *)
Theorem pool_size_must_be_positive (W : World) (titles : list pystr)
    (outdir : pystr) (n : Z) (started completed : list nat) (st : State) :
  n ≤ 0 →
  run_threads W titles outdir (Some n) started completed st
  = (Raised (Exn ValueError (str "max_workers must be greater than 0")), st)
  ∧ run_processes W titles outdir (Some n) started completed st
    = (Raised (Exn ValueError (str "max_workers must be greater than 0")), st).
Proof.
  intros Hn. apply pool_size_rejected. cbn. lia.
Qed.

Lemma pool_size_witness :
  run_threads stub_world ABC (str "wiki_dl") (Some 0)
    [0; 1; 2]%nat [0; 1; 2]%nat empty_state
  = (Raised (Exn ValueError (str "max_workers must be greater than 0")),
     empty_state).
Proof.
  exact (proj1 (pool_size_must_be_positive stub_world ABC (str "wiki_dl") 0
                  [0; 1; 2]%nat [0; 1; 2]%nat empty_state
                  ltac:(vm_compute; discriminate))).
Defined.

(** X14. A sequential run that returns has printed exactly one status
    line per identifier, in the order of the batch: the line of a
    successful fetch names the file that was written, the line of a failed
    one names the identifier and the error detail. *)
Theorem sequential_status_lines (W : World) (titles : list pystr)
    (outdir : pystr) (st st' : State) (agg : Z * Z) :
  run_sequential W titles outdir st = (Returned agg, st') →
  ∃ lines,
    stdout st' = stdout st ++ lines
    ∧ length lines = length titles
    ∧ ∀ i t r,
        titles !! i = Some t →
        fetch_page_references W t = Returned r →
        lines !! i
        = Some match error r with
               | None => line_wrote (safe_filename (title r) ++ str ".txt")
               | Some err => line_skipped t err
               end.
Proof.
  intros Hrun.
  destruct (run_sequential_cases W titles outdir st)
    as [[Hp Hret]|(d & t0 & rest & e & _ & _ & _ & Hraise)];
    [|congruence].
  rewrite Hret in Hrun. injection Hrun as _ <-.
  exists (seq_line W outdir <$> titles). cbn [stdout].
  split; [done|]. split; [apply length_fmap|].
  intros i t r Ht Hr.
  rewrite fetch_page_references_returns in Hr. injection Hr as <-.
  rewrite list_lookup_fmap, Ht. cbn. f_equal.
  rewrite Forall_forall in Hp.
  destruct (Hp t) as [q Hq]; [by eapply list_elem_of_lookup_2|].
  apply seq_result_returned in Hq as [Hq _].
  by eapply seq_line_returned.
Qed.

Lemma sequential_lines_witness :
  ∃ lines,
    stdout (run_sequential stub_world ABC (str "wiki_dl") empty_state).2
    = stdout empty_state ++ lines
    ∧ length lines = length ABC
    ∧ ∀ i t r,
        ABC !! i = Some t →
        fetch_page_references stub_world t = Returned r →
        lines !! i
        = Some match error r with
               | None => line_wrote (safe_filename (title r) ++ str ".txt")
               | Some err => line_skipped t err
               end.
Proof.
  refine (sequential_status_lines stub_world ABC (str "wiki_dl") empty_state
            _ (2, 1) _).
  vm_compute. reflexivity.
Defined.

Lemma submitted_length (W : World) (outdir : pystr) (titles : list pystr)
    (completed : list nat) :
  Forall (λ i, i < length titles)%nat completed →
  length (submitted W outdir titles completed) = length completed.
Proof.
  unfold submitted. induction 1 as [|j completed Hj _ IH]; [done|].
  cbn [omap list_omap].
  destruct (lookup_lt_is_Some_2 titles j Hj) as [tj ->]. cbn.
  by rewrite IH.
Qed.

Lemma submitted_lookup_at (W : World) (outdir : pystr) (titles : list pystr)
    (completed : list nat) (k i : nat) (t : pystr) :
  Forall (λ i, i < length titles)%nat completed →
  completed !! k = Some i → titles !! i = Some t →
  submitted W outdir titles completed !! k
  = Some (t, worker_result W outdir t).
Proof.
  unfold submitted. intros Hall. revert k.
  induction Hall as [|j completed Hj _ IH]; intros k Hk Ht; [done|].
  cbn [omap list_omap].
  destruct (lookup_lt_is_Some_2 titles j Hj) as [tj Htj]. rewrite Htj. cbn.
  destruct k as [|k].
  - injection Hk as ->. rewrite Ht in Htj. by injection Htj as <-.
  - by apply IH.
Qed.

Lemma schedule_bounds (n : nat) (order : list nat) :
  schedule n order → Forall (λ i, i < n)%nat order.
Proof.
  intros H. apply Forall_forall. intros i Hi.
  by apply (schedule_elem_of n order i H).
Qed.

(** X15. On a standard output that accepts every line, a pool prints
    exactly one status line per identifier, in the
    order in which the futures complete: the line of a task that returned
    without error names the written file, the line of a task that returned
    an error names the identifier and the error detail, and the line of a
    task that raised names the identifier and the error text of the
    pool. *)
Theorem pool_status_lines (W : World) (titles : list pystr) (outdir : pystr)
    (max_workers : option Z) (started completed : list nat) (st : State) :
  stdout_accepts W →
  pool_size_ok max_workers →
  schedule (length titles) started →
  schedule (length titles) completed →
  ∃ lines_t lines_p,
    stdout (run_threads W titles outdir max_workers started completed st).2
    = stdout st ++ lines_t
    ∧ stdout (run_processes W titles outdir max_workers started completed st).2
      = stdout st ++ lines_p
    ∧ length lines_t = length titles
    ∧ length lines_p = length titles
    ∧ ∀ k i t,
        completed !! k = Some i → titles !! i = Some t →
        lines_t !! k
        = Some match (_process_worker W t outdir st).1 with
               | Returned (name, None) => line_wrote name
               | Returned (_, Some err) => line_skipped t err
               | Raised e => line_skipped t (str "thread error: " ++ exn_str e)
               end
        ∧ lines_p !! k
          = Some match (_process_worker W t outdir st).1 with
                 | Returned (name, None) => line_wrote name
                 | Returned (_, Some err) => line_skipped t err
                 | Raised e =>
                     line_skipped t (str "process error: " ++ exn_str e)
                 end.
Proof.
  intros Hacc Hmw Hs Hc.
  exists (pool_line (str "thread error: ")
            <$> submitted W outdir titles completed),
    (pool_line (str "process error: ")
       <$> submitted W outdir titles completed).
  rewrite run_threads_run, run_processes_run by auto using accepts_all.
  cbn [snd stdout].
  split; [done|]. split; [done|].
  pose proof (Permutation_length Hc) as Hlen. rewrite length_seq in Hlen.
  pose proof (schedule_bounds _ _ Hc) as Hb.
  assert (Hl : length (submitted W outdir titles completed) = length titles).
  { rewrite submitted_length by done. done. }
  rewrite !length_fmap. split; [done|]. split; [done|].
  intros k i t Hk Ht.
  pose proof (submitted_lookup_at W outdir titles completed k i t Hb Hk Ht)
    as Hsub.
  rewrite !list_lookup_fmap, Hsub, process_worker_run. cbn [fst snd fmap option_fmap option_map].
  unfold pool_line. cbn [fst snd]. done.
Qed.

Lemma pool_lines_witness :
  ∃ lines_t lines_p,
    stdout (run_threads stub_world ABC (str "wiki_dl") None
              [2; 0; 1]%nat [1; 2; 0]%nat empty_state).2
    = stdout empty_state ++ lines_t
    ∧ stdout (run_processes stub_world ABC (str "wiki_dl") None
                [2; 0; 1]%nat [1; 2; 0]%nat empty_state).2
      = stdout empty_state ++ lines_p
    ∧ length lines_t = length ABC
    ∧ length lines_p = length ABC.
Proof.
  destruct (pool_status_lines stub_world ABC (str "wiki_dl") None
              [2; 0; 1]%nat [1; 2; 0]%nat empty_state
              stub_stdout_accepts I schedule_201 schedule_120)
    as (lt & lp & H1 & H2 & H3 & H4 & _).
  exists lt, lp. repeat split; assumption.
Defined.

(** X16. The sequential strategy composes: running a batch is running a
    first part and then the rest over the state the first part left, with
    the two aggregates added; an error that ends the first part ends the
    whole run in the same state, before the rest is looked at. *)
Theorem run_sequential_app (W : World) (first rest : list pystr)
    (outdir : pystr) (st : State) :
  match run_sequential W first outdir st with
  | (Returned (ok1, skipped1), st1) =>
      match run_sequential W rest outdir st1 with
      | (Returned (ok2, skipped2), st2) =>
          run_sequential W (first ++ rest) outdir st
          = (Returned (ok1 + ok2, skipped1 + skipped2), st2)
      | (Raised e, st2) =>
          run_sequential W (first ++ rest) outdir st = (Raised e, st2)
      end
  | (Raised e, st1) =>
      run_sequential W (first ++ rest) outdir st = (Raised e, st1)
  end.
Proof.
  destruct (run_sequential_cases W first outdir st)
    as [[Hp1 ->]|(d & t & r1 & e & -> & Hd & He & ->)].
  - destruct (run_sequential_cases W rest outdir
                (mkState (run_writes W outdir first (files st))
                   (stdout st ++ (seq_line W outdir <$> first))))
      as [[Hp2 ->]|(d & t & r2 & e & -> & Hd & He & ->)].
    + unfold run_sequential.
      rewrite run_sequential_loop_returns by by apply Forall_app.
      destruct (count_ok_app (item_ok W outdir) first rest) as [-> ->].
      rewrite run_writes_app, fmap_app, app_assoc. cbn [files stdout].
      do 2 f_equal; f_equal; lia.
    + unfold run_sequential. rewrite app_assoc.
      rewrite (run_sequential_loop_raises W outdir (first ++ d) t r2 e)
        by (by try apply Forall_app).
      cbn [files stdout].
      rewrite <- !app_assoc, !run_writes_app, fmap_app, app_assoc. done.
  - unfold run_sequential. rewrite <- app_assoc. cbn [app].
    by rewrite (run_sequential_loop_raises W outdir d t (r1 ++ rest) e).
Qed.

Lemma schedule_in_order (n : nat) : schedule n (seq 0 n).
Proof. by unfold schedule. Qed.

Lemma lookups_in_order {A} (l : list A) :
  omap (l !!.) (seq 0 (length l)) = l.
Proof. exact (lookup_all_indices [] l). Qed.

(** X17. A pool that takes the tasks and delivers the completions in
    submission order does exactly what the sequential strategy does,
    whenever the latter returns: the same aggregate, the same files with
    the same bytes and the same status lines in the same order. *)
Theorem pool_in_order_is_sequential (W : World) (titles : list pystr)
    (outdir : pystr) (max_workers : option Z) (st st' : State)
    (agg : Z * Z) :
  pool_size_ok max_workers →
  run_sequential W titles outdir st = (Returned agg, st') →
  run_threads W titles outdir max_workers
    (seq 0 (length titles)) (seq 0 (length titles)) st
  = (Returned agg, st')
  ∧ run_processes W titles outdir max_workers
      (seq 0 (length titles)) (seq 0 (length titles)) st
    = (Returned agg, st').
Proof.
  intros Hmw Hrun.
  destruct (run_sequential_cases W titles outdir st)
    as [[Hp Hret]|(d & t0 & rest & e & _ & _ & _ & Hraise)];
    [|congruence].
  rewrite Hret in Hrun. injection Hrun as <- <-.
  rewrite run_threads_run, run_processes_run
    by auto using schedule_in_order, seq_returns_pool_accepted.
  rewrite submitted_lookup, lookups_in_order.
  assert (Hlines : ∀ label,
            pool_line label <$> ((λ t, (t, worker_result W outdir t)) <$> titles)
            = seq_line W outdir <$> titles).
  { intros label. rewrite <- list_fmap_compose.
    apply Forall_fmap_ext. eapply Forall_impl; [exact Hp|].
    intros t [q Hq]. apply seq_result_returned in Hq as [Hq _].
    by eapply pool_line_returned. }
  by rewrite !Hlines.
Qed.

Lemma pool_in_order_witness :
  run_threads stub_world ABC (str "wiki_dl") None
    [0; 1; 2]%nat [0; 1; 2]%nat empty_state
  = run_sequential stub_world ABC (str "wiki_dl") empty_state.
Proof.
  refine (eq_trans
            (proj1 (pool_in_order_is_sequential stub_world ABC (str "wiki_dl")
                      None empty_state _ (2, 1) I _)) _).
  - vm_compute. reflexivity.
  - vm_compute. reflexivity.
Defined.

Lemma write_files_comm (w1 w2 : option (path * string))
    (fs : gmap path string) :
  (∀ p b1 b2, w1 = Some (p, b1) → w2 = Some (p, b2) → b1 = b2) →
  write_files w1 (write_files w2 fs) = write_files w2 (write_files w1 fs).
Proof.
  intros H. destruct w1 as [[p1 b1]|], w2 as [[p2 b2]|]; try done.
  cbn [write_files]. destruct (decide (p1 = p2)) as [->|Hne].
  - by rewrite (H p2 b1 b2).
  - by apply insert_insert_ne.
Qed.

Lemma run_writes_perm (W : World) (outdir : pystr) (ts ts' : list pystr) :
  ts ≡ₚ ts' →
  (∀ t1 t2 p b1 b2, t1 ∈ ts → t2 ∈ ts →
     task_write W outdir t1 = Some (p, b1) →
     task_write W outdir t2 = Some (p, b2) → b1 = b2) →
  ∀ fs, run_writes W outdir ts fs = run_writes W outdir ts' fs.
Proof.
  induction 1 as [|x l l' Hp IH|x y l|l l' l'' Hp1 IH1 Hp2 IH2];
    intros Hsame fs.
  - done.
  - rewrite !run_writes_cons. apply IH.
    intros t1 t2 p b1 b2 H1 H2. apply Hsame; by right.
  - rewrite !run_writes_cons. f_equal. apply write_files_comm.
    intros p b1 b2 H1 H2. apply (Hsame x y p b1 b2); try done.
    + right. by left.
    + by left.
  - rewrite IH1 by done. apply IH2.
    intros t1 t2 p b1 b2 H1 H2. apply Hsame; by rewrite Hp1.
Qed.

(** X19. The schedule of a pool matters for the files only where two
    identifiers collide with different content: when any two successful
    fetches of the batch that get the same sanitized name carry the same
    references, every schedule of either pool leaves the same files with
    the same bytes, and they are the files of the sequential strategy
    whenever that one returns. *)
Theorem files_do_not_depend_on_schedule (W : World) (titles : list pystr)
    (outdir : pystr) (st : State) :
  (∀ t1 t2 r1 r2, t1 ∈ titles → t2 ∈ titles →
     fetch_page_references W t1 = Returned r1 →
     fetch_page_references W t2 = Returned r2 →
     error r1 = None → error r2 = None →
     safe_filename (title r1) = safe_filename (title r2) →
     references r1 = references r2) →
  ∃ fs : gmap path string,
    (∀ max_workers started completed,
       pool_size_ok max_workers →
       schedule (length titles) started →
       schedule (length titles) completed →
       files (run_threads W titles outdir max_workers started completed st).2
       = fs
       ∧ files (run_processes W titles outdir max_workers started
                  completed st).2 = fs)
    ∧ (∀ agg st', run_sequential W titles outdir st = (Returned agg, st') →
                  files st' = fs).
Proof.
  intros Hsame. exists (run_writes W outdir titles (files st)).
  assert (Hw : ∀ t1 t2 p b1 b2, t1 ∈ titles → t2 ∈ titles →
            task_write W outdir t1 = Some (p, b1) →
            task_write W outdir t2 = Some (p, b2) → b1 = b2).
  { intros t1 t2 p b1 b2 H1 H2 Hw1 Hw2.
    destruct (task_write_success _ _ _ _ _ Hw1) as [He1 Hp1].
    destruct (task_write_success _ _ _ _ _ Hw2) as [He2 Hp2].
    assert (Hr : references (fetched W t1) = references (fetched W t2)).
    { apply (Hsame t1 t2); auto using fetch_page_references_returns.
      rewrite Hp1 in Hp2. unfold target in Hp2. injection Hp2 as Hp2.
      by apply app_inv_tail in Hp2. }
    unfold task_write, persist_write in Hw1, Hw2.
    rewrite He1 in Hw1. rewrite He2 in Hw2.
    destruct (open_error W (target outdir (fetched W t1))); [done|].
    destruct (open_error W (target outdir (fetched W t2))); [done|].
    rewrite Hr in Hw1. congruence. }
  split.
  - intros mw started completed Hmw Hs Hc.
    destruct (run_pools_files W titles outdir mw started completed st Hmw)
      as [-> ->].
    assert (Hperm : titles ≡ₚ omap (titles !!.) started)
      by (symmetry; by apply lookup_schedule).
    by rewrite (run_writes_perm W outdir _ _ Hperm Hw).
  - intros agg st' Hrun.
    destruct (run_sequential_cases W titles outdir st)
      as [[_ Hret]|(d & t0 & rest & e & _ & _ & _ & Hraise)];
      [|congruence].
    rewrite Hret in Hrun. by injection Hrun as _ <-.
Qed.

Lemma files_schedule_witness :
  ∃ fs : gmap path string,
    files (run_threads echo_world [str "A"; str "A"] (str "wiki_dl") None
             [1; 0]%nat [0; 1]%nat empty_state).2 = fs
    ∧ files (run_threads echo_world [str "A"; str "A"] (str "wiki_dl") None
               [0; 1]%nat [1; 0]%nat empty_state).2 = fs.
Proof.
  destruct (files_do_not_depend_on_schedule echo_world [str "A"; str "A"]
              (str "wiki_dl") empty_state) as (fs & Hpool & _).
  - intros t1 t2 r1 r2 H1 H2 Hf1 Hf2 _ _ _.
    assert (E : ∀ t, t ∈ [str "A"; str "A"] → t = str "A").
    { intros t Ht. apply elem_of_cons in Ht as [->|Ht]; [done|].
      apply elem_of_cons in Ht as [->|Ht]; [done|].
      by apply elem_of_nil in Ht. }
    rewrite (E t1 H1) in Hf1. rewrite (E t2 H2) in Hf2. congruence.
  - exists fs. split.
    + apply (Hpool None [1; 0]%nat [0; 1]%nat I);
        unfold schedule; simpl; solve_Permutation.
    + apply (Hpool None [0; 1]%nat [1; 0]%nat I);
        unfold schedule; simpl; solve_Permutation.
Defined.

Lemma count_ok_ext {A} (f g : A → bool) (l : list A) :
  Forall (λ x, f x = g x) l →
  count_ok f l = count_ok g l ∧ count_skipped f l = count_skipped g l.
Proof.
  induction 1 as [|x l Hx _ [IH1 IH2]]; [done|].
  cbn [count_ok count_skipped]. by rewrite Hx, IH1, IH2.
Qed.

Lemma item_ok_source (W : World) (outdir t : pystr) (q : option path) :
  item_result W outdir t = Returned q → item_ok W outdir t = source_ok W t.
Proof.
  intros Hq. unfold item_ok, source_ok. rewrite Hq.
  destruct (source_failure W t) as [e|] eqn:Hs.
  - destruct (fetch_failure W t e Hs) as (label & Hf & _).
    destruct (item_result_cases W outdir t)
      as [(err & Herr & Hi)|[(Herr & Hi)|(Herr & e' & Hi)]].
    + rewrite Hi in Hq. by injection Hq as <-.
    + unfold fetched in Herr. by rewrite Hf in Herr.
    + congruence.
  - destruct (fetch_success W t Hs) as (page & refs & _ & _ & Hf).
    destruct (item_result_cases W outdir t)
      as [(err & Herr & Hi)|[(Herr & Hi)|(Herr & e' & Hi)]].
    + unfold fetched in Herr. by rewrite Hf in Herr.
    + rewrite Hi in Hq. by injection Hq as <-.
    + congruence.
Qed.

(** X20. What the aggregate counts: when no persist step raises and the
    standard output accepts every line, each strategy returns as ok the
    number of identifiers on which the content source did not fail and as
    skipped the number of those on which it failed. *)
Theorem aggregate_counts_fetches (W : World) (titles : list pystr)
    (outdir : pystr) (max_workers : option Z) (started completed : list nat)
    (st : State) :
  stdout_accepts W →
  Forall (persist_returns W outdir) titles →
  pool_size_ok max_workers →
  schedule (length titles) started →
  schedule (length titles) completed →
  let agg := (count_ok (source_ok W) titles,
              count_skipped (source_ok W) titles) in
  (run_sequential W titles outdir st).1 = Returned agg
  ∧ (run_threads W titles outdir max_workers started completed st).1
    = Returned agg
  ∧ (run_processes W titles outdir max_workers started completed st).1
    = Returned agg.
Proof.
  intros Hacc Hp Hmw Hs Hc agg. unfold run_sequential.
  rewrite run_sequential_loop_returns, run_threads_run, run_processes_run
    by auto using accepts_all, persist_returns_seq.
  apply persist_returns_items in Hp.
  cbn [fst]. rewrite !Z.add_0_l.
  destruct (count_ok_ext (item_ok W outdir) (source_ok W) titles) as [-> ->];
    [|done].
  eapply Forall_impl; [exact Hp|]. intros t [q Hq].
  by eapply item_ok_source.
Qed.

Lemma aggregate_fetches_witness :
  (run_sequential stub_world ABC (str "wiki_dl") empty_state).1
  = Returned (count_ok (source_ok stub_world) ABC,
              count_skipped (source_ok stub_world) ABC)
  ∧ (run_threads stub_world ABC (str "wiki_dl") None
       [2; 0; 1]%nat [1; 2; 0]%nat empty_state).1
    = Returned (count_ok (source_ok stub_world) ABC,
                count_skipped (source_ok stub_world) ABC).
Proof.
  destruct (aggregate_counts_fetches stub_world ABC (str "wiki_dl") None
              [2; 0; 1]%nat [1; 2; 0]%nat empty_state
              stub_stdout_accepts (stub_persist_returns (str "wiki_dl")) I
              schedule_201 schedule_120) as (H1 & H2 & _).
  split; assumption.
Defined.

(** X23. On a standard output that accepts every line the Batch
    Aggregate counts every submitted identifier once under each of the
    three strategies: [ok + skipped] is the length of the batch and both
    counters are non-negative. A pool returns its aggregate under every
    schedule of the batch once its size is accepted; the sequential
    strategy returns it when no persist step raises. *)
Theorem aggregate_when_stdout_accepts (W : World) (titles : list pystr)
    (outdir : pystr) (max_workers : option Z) (started completed : list nat)
    (st : State) :
  stdout_accepts W →
  schedule (length titles) started →
  schedule (length titles) completed →
  let n := length titles in
  let sequential := run_sequential W titles outdir st in
  let threads := run_threads W titles outdir max_workers started completed st in
  let processes :=
    run_processes W titles outdir max_workers started completed st in
  (∀ run ok skipped,
     run ∈ [sequential; threads; processes] →
     run.1 = Returned (ok, skipped) →
     ok + skipped = Z.of_nat n ∧ 0 ≤ ok ∧ 0 ≤ skipped)
  ∧ (pool_size_ok max_workers →
     aggregate_of n threads ∧ aggregate_of n processes)
  ∧ (Forall (persist_returns W outdir) titles → aggregate_of n sequential).
Proof.
  intros Hacc Hs Hc n sequential threads processes.
  pose proof (count_ok_skipped (item_ok W outdir) titles) as (Hok & Hsk & Hsum).
  assert (Hpool : pool_size_ok max_workers →
                  aggregate_of n threads ∧ aggregate_of n processes).
  { intros Hmw. unfold aggregate_of, threads, processes.
    rewrite run_threads_run, run_processes_run by auto using accepts_all.
    split; eexists _, _; (split; [reflexivity|done]). }
  assert (Hall : Forall (λ t, ∃ q, seq_result W outdir t = Returned q) titles →
                 aggregate_of n sequential).
  { intros Hp. unfold aggregate_of, sequential, run_sequential.
    rewrite run_sequential_loop_returns by done.
    eexists _, _; (split; [reflexivity|]). simpl. lia. }
  split; [|split; [done|auto using persist_returns_seq]].
  intros run ok skipped Hrun Hret.
  assert (Hagg : aggregate_of n run ∨ ∃ e, run.1 = Raised e).
  { apply elem_of_cons in Hrun as [->|Hrun];
      [|apply elem_of_cons in Hrun as [->|Hrun];
        [|apply list_elem_of_singleton in Hrun as ->]].
    - destruct (run_sequential_cases W titles outdir st)
        as [[Hp _]|(d & t & rest & e & _ & _ & _ & He)].
      + left. by apply Hall.
      + right. exists e. unfold sequential. by rewrite He.
    - destruct (pool_size_ok_dec max_workers) as [Hmw|Hmw].
      + left. by apply Hpool.
      + right. destruct (run_threads_raises W titles outdir max_workers
                           started completed st Hmw) as [e He].
        exists e. unfold threads. by rewrite He.
    - destruct (pool_size_ok_dec max_workers) as [Hmw|Hmw].
      + left. by apply Hpool.
      + right. destruct (run_processes_raises W titles outdir max_workers
                           started completed st Hmw) as [e He].
        exists e. unfold processes. by rewrite He. }
  destruct Hagg as [(ok' & sk' & Hr & H)|[e He]]; [|congruence].
  rewrite Hr in Hret. by injection Hret as <- <-.
Qed.

Lemma aggregate_accepted_witness :
  aggregate_of 3
    (run_threads stub_world ABC (str "wiki_dl") (Some 4)
       [2; 0; 1]%nat [1; 2; 0]%nat empty_state)
  ∧ aggregate_of 3
      (run_processes stub_world ABC (str "wiki_dl") (Some 4)
         [2; 0; 1]%nat [1; 2; 0]%nat empty_state)
  ∧ aggregate_of 3 (run_sequential stub_world ABC (str "wiki_dl") empty_state).
Proof.
  destruct (aggregate_when_stdout_accepts stub_world ABC
              (str "wiki_dl") (Some 4) [2; 0; 1]%nat [1; 2; 0]%nat
              empty_state stub_stdout_accepts schedule_201 schedule_120)
    as (_ & Hpool & Hseq).
  destruct (Hpool eq_refl) as [Ht Hp].
  exact (conj Ht (conj Hp (Hseq (stub_persist_returns (str "wiki_dl"))))).
Defined.

(** ** The driver *)

Example fmt_int_ex : fmt_int 12 = str "12" ∧ fmt_int 0 = str "0".
Proof. split; reflexivity. Qed.

Lemma bind_run {A B} (m : M A) (f : A → M B) (st : State) :
  (m ≫= f) st
  = match m st with
    | (Returned a, st') => f a st'
    | (Raised e, st') => (Raised e, st')
    end.
Proof. done. Qed.

Lemma main_start (H : Host) (W : World) (args : Namespace)
    (started completed : list nat) (st : State) (t0 : pystr) :
  term_read H args t0 →
  main H W args started completed st
  = (outdir ← ensure_dir H (args_outdir args);
     print W (str "Searching Wikipedia for related pages to: '"
              ++ coerce_search_term (Some t0) ++ str "'");;
     titles ← lift (search_related W (coerce_search_term (Some t0))
                      (args_max args));
     match titles with
     | [] => print W (str "No related pages found. Nothing to do.")
     | _ =>
         print W (str "Processing " ++ fmt_int (Z.of_nat (length titles))
                  ++ str " page(s) " ++ [8594%N]
                  ++ str " saving .txt files to "
                  ++ resolved H outdir ++ newline);;
         '(ok, skipped) ←
           (if decide (args_mode args = str "seq") then
              run_sequential W titles outdir
            else if decide (args_mode args = str "threads") then
              run_threads W titles outdir (args_workers args) started completed
            else
              run_processes W titles outdir (args_workers args)
                started completed);
         print W (newline ++ str "Summary:");;
         print W (str "  wrote:   " ++ fmt_int ok);;
         print W (str "  skipped: " ++ fmt_int skipped);;
         print W (str "  elapsed: " ++ elapsed H ++ str " s")
     end) (asked args st).
Proof.
  unfold main, asked. intros [Ht|[Ht Hin]]; rewrite Ht.
  - done.
  - unfold mbind at 1, M_bind at 1, input. by rewrite Hin.
Qed.


(** X22. When the search gives titles, the driver runs the strategy that
    the mode selects (the sequential one for seq, the thread pool for
    threads, the process pool for anything else) on exactly those titles
    and the given directory, after its two opening lines. If the strategy
    returns, the driver returns after four more lines, two of which show
    the ok and the skipped count of the aggregate in decimal, and it
    changes no file itself. If the strategy raises, that error leaves the
    driver and no summary is printed. The standard output is one that
    accepts every line. *)
Theorem main_runs_selected_strategy (H : Host) (W : World) (args : Namespace)
    (started completed : list nat) (st : State) (t0 : pystr)
    (titles : list pystr) :
  stdout_accepts W →
  term_read H args t0 →
  mkdir_error H (args_outdir args) = None →
  search_related W (coerce_search_term (Some t0)) (args_max args)
  = Returned titles →
  titles ≠ [] →
  let outdir := args_outdir args in
  let st1 :=
    mkState (files st)
      (stdout (asked args st)
       ++ [str "Searching Wikipedia for related pages to: '"
           ++ coerce_search_term (Some t0) ++ str "'";
           str "Processing " ++ fmt_int (Z.of_nat (length titles))
           ++ str " page(s) " ++ [8594%N] ++ str " saving .txt files to "
           ++ resolved H outdir ++ newline]) in
  let strategy :=
    if decide (args_mode args = str "seq") then
      run_sequential W titles outdir
    else if decide (args_mode args = str "threads") then
      run_threads W titles outdir (args_workers args) started completed
    else
      run_processes W titles outdir (args_workers args) started completed in
  match strategy st1 with
  | (Returned (ok, skipped), st2) =>
      main H W args started completed st
      = (Returned (),
         mkState (files st2)
           (stdout st2
            ++ [newline ++ str "Summary:";
                str "  wrote:   " ++ fmt_int ok;
                str "  skipped: " ++ fmt_int skipped;
                str "  elapsed: " ++ elapsed H ++ str " s"]))
  | (Raised e, st2) =>
      main H W args started completed st = (Raised e, st2)
  end.
Proof.
  intros Hacc Ht Hmk Hsearch Hne outdir st1 strategy.
  assert (Hmain :
    main H W args started completed st
    = match strategy st1 with
      | (Returned (ok, skipped), st2) =>
          (Returned (),
           mkState (files st2)
             (stdout st2
              ++ [newline ++ str "Summary:";
                  str "  wrote:   " ++ fmt_int ok;
                  str "  skipped: " ++ fmt_int skipped;
                  str "  elapsed: " ++ elapsed H ++ str " s"]))
      | (Raised e, st2) => (Raised e, st2)
      end).
  { rewrite (main_start H W args _ _ st t0 Ht).
    rewrite bind_run. unfold ensure_dir at 1. rewrite Hmk.
    change (@mret M _ _ (args_outdir args) (asked args st))
      with (Returned (args_outdir args), asked args st).
    cbv iota beta. rewrite bind_run, print_accepted by apply Hacc.
    rewrite bind_run. unfold lift at 1. rewrite Hsearch. cbv iota beta.
    destruct titles as [|t titles]; [done|].
    rewrite bind_run, print_accepted by apply Hacc. cbn [files stdout].
    rewrite bind_run.
    assert (Hfs : files (asked args st) = files st).
    { unfold asked. by destruct (truthy (args_term args)). }
    rewrite Hfs, <- app_assoc. cbn [app].
    fold outdir. fold strategy.
    lazymatch goal with
    | |- context [strategy (mkState ?f ?o)] => change (mkState f o) with st1
    end.
    destruct (strategy st1) as [[[ok skipped]|e] st2]; [|done].
    unfold print, mbind, M_bind. rewrite !Hacc. cbn [files stdout].
    by rewrite <- !app_assoc. }
  by destruct (strategy st1) as [[[ok skipped]|e] st2].
Qed.

Lemma main_witness :
  match
    run_threads driver_world [str "A"; str "B"; str "C"] OUTPUT_DIR None
      [2; 0; 1]%nat [1; 2; 0]%nat
      (mkState (files empty_state)
         (stdout (asked driver_args empty_state)
          ++ [str "Searching Wikipedia for related pages to: '"
              ++ coerce_search_term (Some (str " wiki ")) ++ str "'";
              str "Processing "
              ++ fmt_int (Z.of_nat (length [str "A"; str "B"; str "C"]))
              ++ str " page(s) " ++ [8594%N] ++ str " saving .txt files to "
              ++ resolved driver_host OUTPUT_DIR ++ newline]))
  with
  | (Returned (ok, skipped), st2) =>
      main driver_host driver_world driver_args [2; 0; 1]%nat [1; 2; 0]%nat
        empty_state
      = (Returned (),
         mkState (files st2)
           (stdout st2
            ++ [newline ++ str "Summary:";
                str "  wrote:   " ++ fmt_int ok;
                str "  skipped: " ++ fmt_int skipped;
                str "  elapsed: " ++ elapsed driver_host ++ str " s"]))
  | (Raised e, st2) =>
      main driver_host driver_world driver_args [2; 0; 1]%nat [1; 2; 0]%nat
        empty_state
      = (Raised e, st2)
  end.
Proof.
  apply (main_runs_selected_strategy driver_host driver_world driver_args
           [2; 0; 1]%nat [1; 2; 0]%nat empty_state (str " wiki ")
           [str "A"; str "B"; str "C"]).
  - intros line. reflexivity.
  - right. split; reflexivity.
  - reflexivity.
  - vm_compute. reflexivity.
  - discriminate.
Defined.

(** The same run on a standard output in GBK: the driver announces three
    pages and reports two written and three skipped. *)
Example main_counts_refused_lines_twice :
  let refused :=
    str "thread error: 'gbk' codec can't encode character '\u2713'"
    ++ str " in position 0: illegal multibyte sequence" in
  (main driver_host gbk_driver_world driver_args [2; 0; 1]%nat [1; 2; 0]%nat
     empty_state).1 = Returned ()
  ∧ stdout (main driver_host gbk_driver_world driver_args
              [2; 0; 1]%nat [1; 2; 0]%nat empty_state).2
    = [str "Enter a search term: ";
       str "Searching Wikipedia for related pages to: 'wiki'";
       str "Processing 3 page(s) " ++ [8594%N]
       ++ str " saving .txt files to /home/user/wiki_dl" ++ newline;
       line_skipped (str "B") (str "Timeout: timed out");
       line_skipped (str "C") refused;
       line_skipped (str "A") refused;
       newline ++ str "Summary:";
       str "  wrote:   2";
       str "  skipped: 3";
       str "  elapsed: 0.01 s"].
Proof. split; vm_compute; reflexivity. Qed.

Example main_example :
  (main driver_host driver_world driver_args [2; 0; 1]%nat [1; 2; 0]%nat
     empty_state).1 = Returned ()
  ∧ stdout (main driver_host driver_world driver_args
              [2; 0; 1]%nat [1; 2; 0]%nat empty_state).2
    = [str "Enter a search term: ";
       str "Searching Wikipedia for related pages to: 'wiki'";
       str "Processing 3 page(s) " ++ [8594%N]
       ++ str " saving .txt files to /home/user/wiki_dl" ++ newline;
       line_skipped (str "B") (str "Timeout: timed out");
       line_wrote (str "C.txt");
       line_wrote (str "A.txt");
       newline ++ str "Summary:";
       str "  wrote:   2";
       str "  skipped: 1";
       str "  elapsed: 0.01 s"].
Proof. split; vm_compute; reflexivity. Qed.
